(** * rmr: replaying remembered hunk decisions through [git checkout -p]

    A shallow embedding of [rmr.py] and the properties of its three core
    parts: the diff change extractor ([extract_changes]), the hunk decision
    engine ([revert_ignored_changes]) and the pseudo-terminal driver
    ([Process]).

    Conventions of the embedding.
    - A Python [str] is a [string]: the embedding covers the texts whose
      code points lie below 256, among them every character the program
      tests for.  Bytes are strings too, and [decode()] is followed on
      ASCII bytes, which are their own text.  [Process_iter] takes what is
      read from the terminal to be ASCII and every read to hand over all
      that is pending; [Process_iter_passes] does without both.
    - A value that may be [None] is an [option]; Python truthiness of such a
      value is [truthy].
    - A generator is the list of the values it yields, in order; the
      generator of [Process.__iter__], whose consumer talks back to it, is a
      loop that runs the consumer's body at every yield.
    - Exceptions are the [Raise] results of [result]. *)

From Stdlib Require Import Ascii.
From stdpp Require Import base option list strings gmap.

Set Default Proof Using "Type".

(** ** Python string primitives *)

Module Py.

Definition LF : ascii := "010"%char.
Definition CR : ascii := "013"%char.
Definition nl : string := String LF "".

(** [s.startswith(prefix)]. *)
Fixpoint startswith (s prefix : string) {struct prefix} : bool :=
  match prefix, s with
  | EmptyString, _ => true
  | String _ _, EmptyString => false
  | String p prefix', String c s' =>
      if decide (p = c) then startswith s' prefix' else false
  end.

(** [s.startswith((p1, p2))]: a tuple of prefixes. *)
Definition startswith_any (s : string) (prefixes : list string) : bool :=
  existsb (startswith s) prefixes.

(** [s[n:]]. *)
Fixpoint drop_chars (n : nat) (s : string) : string :=
  match n, s with
  | O, _ => s
  | S _, EmptyString => EmptyString
  | S n', String _ s' => drop_chars n' s'
  end.

(** [s.partition(sep)] for a non-empty [sep]: the text before the first
    occurrence of [sep], [sep] itself and the text after it; the whole of
    [s] and two empty strings when [sep] does not occur. *)
Fixpoint partition (s sep : string) : string * string * string :=
  if startswith s sep then (EmptyString, sep, drop_chars (String.length sep) s)
  else match s with
       | EmptyString => (EmptyString, EmptyString, EmptyString)
       | String c s' =>
           let '(before, mid, after) := partition s' sep in
           (String c before, mid, after)
       end.

(** [sub in s]. *)
Fixpoint contains (s sub : string) : bool :=
  if startswith s sub then true
  else match s with
       | EmptyString => false
       | String _ s' => contains s' sub
       end.

(** The characters at which [str.splitlines] breaks a line (those below
    256): LF, VT, FF, CR, FS, GS, RS and NEL. *)
Definition is_linebreak (c : ascii) : bool :=
  match c with
  | "010" | "011" | "012" | "013" | "028" | "029" | "030" | "133" => true
  | _ => false
  end%char.

(** [s.splitlines()]: CR LF is one break, and a break at the very end opens
    no further line. *)
Fixpoint splitlines (s : string) : list string :=
  match s with
  | EmptyString => []
  | String c s' =>
      if is_linebreak c then
        match c, s' with
        | "013"%char, String "010"%char s'' => EmptyString :: splitlines s''
        | _, _ => EmptyString :: splitlines s'
        end
      else match splitlines s' with
           | [] => [String c EmptyString]
           | line :: lines => String c line :: lines
           end
  end.

(** [s.split(sep)] for the one-character separator [sep]: always at least
    one piece. *)
Fixpoint split (sep : ascii) (s : string) : list string :=
  match s with
  | EmptyString => [EmptyString]
  | String c s' =>
      if decide (c = sep) then EmptyString :: split sep s'
      else match split sep s' with
           | [] => [String c EmptyString]
           | piece :: pieces => String c piece :: pieces
           end
  end.

(** [s.rstrip(c)] for the one-character set [c]. *)
Fixpoint rstrip (c : ascii) (s : string) : string :=
  match s with
  | EmptyString => EmptyString
  | String c' s' =>
      match rstrip c s' with
      | EmptyString => if decide (c' = c) then EmptyString else String c' EmptyString
      | rest => String c' rest
      end
  end.

(** Truthiness of a value that is [None] or a [str]. *)
Definition truthy (v : option string) : bool :=
  match v with
  | Some (String _ _) => true
  | _ => false
  end.

End Py.

(** ** Outcomes of code that may raise *)

Inductive exn : Type :=
| TypeError   (** [in] applied to an object that is no container *)
| BdbQuit.    (** the debugger was left with [quit] *)

Inductive result (A : Type) : Type :=
| Ok (a : A)
| Raise (e : exn).
Arguments Ok {A} a.
Arguments Raise {A} e.

(** ** The diff change extractor *)

(** A change is the list of its [+]/[-] lines; a record pairs it with the
    path it was found under, which is [None] when no path was known. *)
Abbreviation change := (list string).
Abbreviation record := (option string * list string)%type.

(** What [if change: yield a_path, change] contributes. *)
Definition flush (a_path : option string) (chg : change) : list record :=
  match chg with
  | [] => []
  | _ :: _ => [(a_path, chg)]
  end.

(** The body of [extract_changes]: the [for] loop over the lines, with the
    loop variables [a_path], [b_path] and [change] as arguments, followed by
    the final flush. *)
Fixpoint extract_loop (default_path : option string) (lines : list string)
    (a_path b_path : option string) (chg : change) : list record :=
  match lines with
  | [] => flush a_path chg
  | line :: rest =>
      if bool_decide (line ∈ ["n"; "y"; "s"]) then
        extract_loop default_path rest a_path b_path chg
      else if Py.startswith_any line ["diff "; "index "] then
        flush a_path chg ++ extract_loop default_path rest None None []
      else if Py.startswith line "@@ " then
        extract_loop default_path rest a_path b_path chg
      else if Py.startswith line "--- a/" then
        extract_loop default_path rest (Some (Py.partition line " a/").2) b_path chg
      else if Py.startswith line "+++ b/" then
        extract_loop default_path rest a_path (Some (Py.partition line " b/").2) chg
      else
        let a_path :=
          if negb (Py.truthy a_path) && Py.truthy default_path
          then default_path else a_path in
        if negb (Py.startswith_any line ["+"; "-"]) then
          flush a_path chg ++ extract_loop default_path rest a_path b_path []
        else
          extract_loop default_path rest a_path b_path (chg ++ [line])
  end.

(** [list(extract_changes(output, default_path))]. *)
Definition extract_changes (output : string) (default_path : option string)
    : list record :=
  extract_loop default_path (Py.splitlines output) None None [].

(** A line that carries a sign, and a line that echoes an answer. *)
Definition signed (line : string) : Prop :=
  Py.startswith_any line ["+"; "-"] = true.

Definition is_answer_echo (line : string) : Prop :=
  line ∈ ["n"; "y"; "s"].

(** The text has no line that sets the path. *)
Definition no_path_marker (output : string) : Prop :=
  Forall (λ line, Py.startswith line "--- a/" = false) (Py.splitlines output).

(** *** The generator with its list objects

    [extract_changes] builds each change in a list object that it mutates
    with [append] and hands out by reference.  This second embedding keeps
    the objects in a heap: a location is an index, [change = []] allocates,
    [change.append(line)] updates in place and [yield a_path, change] yields
    the location. *)

Abbreviation loc := nat.
Abbreviation heap := (list (list string)).

Definition alloc (h : heap) : loc * heap := (length h, h ++ [[]]).
Definition append_at (l : loc) (line : string) (h : heap) : heap :=
  alter (λ c, c ++ [line]) l h.
Definition deref (h : heap) (l : loc) : list string := default [] (h !! l).

Definition flush_ref (a_path : option string) (chg : loc) (h : heap)
    : list (option string * loc) :=
  match deref h chg with
  | [] => []
  | _ :: _ => [(a_path, chg)]
  end.

Fixpoint extract_loop_refs (default_path : option string) (lines : list string)
    (a_path b_path : option string) (chg : loc) (h : heap)
    : list (option string * loc) * heap :=
  match lines with
  | [] => (flush_ref a_path chg h, h)
  | line :: rest =>
      if bool_decide (line ∈ ["n"; "y"; "s"]) then
        extract_loop_refs default_path rest a_path b_path chg h
      else if Py.startswith_any line ["diff "; "index "] then
        let yielded := flush_ref a_path chg h in
        let '(chg', h') := alloc h in
        let '(more, h'') := extract_loop_refs default_path rest None None chg' h' in
        (yielded ++ more, h'')
      else if Py.startswith line "@@ " then
        extract_loop_refs default_path rest a_path b_path chg h
      else if Py.startswith line "--- a/" then
        extract_loop_refs default_path rest
          (Some (Py.partition line " a/").2) b_path chg h
      else if Py.startswith line "+++ b/" then
        extract_loop_refs default_path rest
          a_path (Some (Py.partition line " b/").2) chg h
      else
        let a_path :=
          if negb (Py.truthy a_path) && Py.truthy default_path
          then default_path else a_path in
        if negb (Py.startswith_any line ["+"; "-"]) then
          let yielded := flush_ref a_path chg h in
          let '(chg', h') := alloc h in
          let '(more, h'') :=
            extract_loop_refs default_path rest a_path b_path chg' h' in
          (yielded ++ more, h'')
        else
          extract_loop_refs default_path rest a_path b_path chg
            (append_at chg line h)
  end.

(** A whole run of the generator on the heap [h]: the yielded references and
    the heap it leaves behind. *)
Definition extract_changes_refs (output : string) (default_path : option string)
    (h : heap) : list (option string * loc) * heap :=
  let '(chg, h') := alloc h in
  extract_loop_refs default_path (Py.splitlines output) None None chg h'.

(** What a holder of the yielded references sees in the heap [h]. *)
Definition observe (h : heap) (yielded : list (option string * loc))
    : list record :=
  map (λ y, (y.1, deref h y.2)) yielded.

(** ** The ignore store *)

(** [_ignores] maps a path to the changes ignored under it.  Keys loaded
    from JSON are strings; [add] may be handed the path [None]. *)
Record IgnoredSuggestionStore : Type := {
  _ignores : gmap (option string) (list change);
  purge_unused : bool;
  _used : list record;
}.

Definition add (self : IgnoredSuggestionStore) (path : option string)
    (suggestion : change) : IgnoredSuggestionStore :=
  let ignores :=
    match _ignores self !! path with
    | None => <[path := []]> (_ignores self)
    | Some _ => _ignores self
    end in
  {| _ignores := alter (λ l, l ++ [suggestion]) path ignores;
     purge_unused := purge_unused self;
     _used := _used self |}.

(** The method the class spells [__contains___], with three closing
    underscores. *)
Definition __contains___ (self : IgnoredSuggestionStore) (chg : record)
    : bool * IgnoredSuggestionStore :=
  let self :=
    if purge_unused self
    then {| _ignores := _ignores self;
            purge_unused := purge_unused self;
            _used := _used self ++ [chg] |}
    else self in
  let '(path, suggestion) := chg in
  (bool_decide (suggestion ∈ default [] (_ignores self !! path)), self).

(** The methods of [class IgnoredSuggestionStore] that take an item and
    answer a truth value, by the name they are bound to.  The other names of
    the class body are [__init__], [__enter__], [__exit__] and [add]. *)
Definition IgnoredSuggestionStore_methods
    : list (string * (IgnoredSuggestionStore → record → bool * IgnoredSuggestionStore)) :=
  [("__contains___", __contains___)].

Fixpoint lookup_method {M : Type} (methods : list (string * M)) (name : string)
    : option M :=
  match methods with
  | [] => None
  | (bound, method) :: others =>
      if decide (bound = name) then Some method else lookup_method others name
  end.

(** The objects [revert_ignored_changes] can be handed as
    [permanently_ignored]: the store, [None] (what [__enter__] returns and
    the [with] statement of [cli] binds) or a plain list of records. *)
Inductive PyValue : Type :=
| VNone
| VStore (s : IgnoredSuggestionStore)
| VList (l : list record).

(** [item in container].  Python calls the [__contains__] of the container's
    class; a class without it, without [__iter__] and without [__getitem__]
    makes the test raise [TypeError]. *)
Definition py_in (item : record) (container : PyValue) : result (bool * PyValue) :=
  match container with
  | VNone => Raise TypeError
  | VStore s =>
      match lookup_method IgnoredSuggestionStore_methods "__contains__" with
      | Some method => let '(b, s') := method s item in Ok (b, VStore s')
      | None => Raise TypeError
      end
  | VList l => Ok (bool_decide (item ∈ l), container)
  end.

(** ** The hunk decision engine *)

Definition prompt_phrase : string := "Discard this hunk from worktree".

(** [proc.writeline(line)]: the line joins the end of [_stdin_queue]. *)
Definition writeline (queue : list string) (line : string) : list string :=
  queue ++ [line].

(** How a call of [breakpoint()] ends: the hook returns (the operator
    continues, or the hook is switched off), or the debugger is quit. *)
Inductive debugger_reply : Type := Continue | Quit.

Definition breakpoint (hook : debugger_reply) : result unit :=
  match hook with
  | Continue => Ok tt
  | Quit => Raise BdbQuit
  end.

(** One recognised prompt: the text handed to the extractor and the answer
    queued for it, if any. *)
Record decision : Type := {
  d_text : string;
  d_answer : option string;
}.

(** The local variables of [revert_ignored_changes] and the object it was
    handed.  [decided] is a ghost field: it records each recognised prompt
    and is read by no branch. *)
Record session : Type := {
  buffer : string;
  path : option string;
  permanently_ignored : PyValue;
  decided : list decision;
}.

Definition start (policy : PyValue) : session :=
  {| buffer := ""; path := None; permanently_ignored := policy; decided := [] |}.

(** The body of the [for] loop of [revert_ignored_changes], run on one
    produced line with the driver's [_stdin_queue]. *)
Definition revert_body (hook : debugger_reply) (st : session)
    (queue : list string) (line : string) : result (session * list string) :=
  if Py.contains line prompt_phrase then
    let changes := extract_changes (buffer st) (path st) in
    match changes with
    | _ :: _ :: _ =>
        Ok ({| buffer := ""; path := path st;
               permanently_ignored := permanently_ignored st;
               decided := decided st ++
                 [{| d_text := buffer st; d_answer := Some "s" |}] |},
            writeline queue "s")
    | [] =>
        match breakpoint hook with
        | Raise e => Raise e
        | Ok _ =>
            Ok ({| buffer := ""; path := path st;
                   permanently_ignored := permanently_ignored st;
                   decided := decided st ++
                     [{| d_text := buffer st; d_answer := None |}] |},
                queue)
        end
    | [(path', chg)] =>
        match py_in (path', chg) (permanently_ignored st) with
        | Raise e => Raise e
        | Ok (found, policy) =>
            let answer := if found then "y" else "n" in
            Ok ({| buffer := ""; path := path';
                   permanently_ignored := policy;
                   decided := decided st ++
                     [{| d_text := buffer st; d_answer := Some answer |}] |},
                writeline queue answer)
        end
    end
  else
    Ok ({| buffer := buffer st +:+ line +:+ Py.nl; path := path st;
           permanently_ignored := permanently_ignored st;
           decided := decided st |},
        queue).

(** ** The pseudo-terminal driver *)

(** What the operating system reports at one pass of the loop of
    [Process.__iter__]: the output that reached the terminal since the
    previous pass (what the child wrote, and the echo of what it was sent),
    whether [poll()] finds the child exited, and whether [select] reports
    the terminal in error or ready for writing.  The terminal is ready for
    reading when unread output is pending. *)
Record tick : Type := {
  emitted : string;
  exited : bool;
  errored : bool;
  writable : bool;
}.

Record Process : Type := {
  pending : string;           (** child output not yet read *)
  child_stdin : list string;  (** what [os.write] has delivered, in order *)
  _stdin_queue : list string;
}.

Definition Process_init : Process :=
  {| pending := ""; child_stdin := []; _stdin_queue := [] |}.

(** [os.read(fd, n)]: at most [n] characters of what is pending, and what
    stays behind. *)
Fixpoint os_read (n : N) (data : string) : string * string :=
  match data with
  | EmptyString => (EmptyString, EmptyString)
  | String c data' =>
      if decide (n = 0%N) then (EmptyString, data)
      else let '(chunk, rest) := os_read (N.pred n) data' in
           (String c chunk, rest)
  end.

(** The end of a pass: [if w and self._stdin_queue], the first queued line
    is popped and written with a newline. *)
Definition deliver (w : bool) (proc : Process) : Process :=
  match w, _stdin_queue proc with
  | true, line :: queue =>
      {| pending := pending proc;
         child_stdin := child_stdin proc ++ [line +:+ Py.nl];
         _stdin_queue := queue |}
  | _, _ => proc
  end.

(** The lines one chunk is yielded as. *)
Definition chunk_lines (data : string) : list string :=
  map (Py.rstrip Py.CR) (Py.split Py.LF data).

(** How the iteration came to its end; [StillRunning] when the reported
    passes are used up with the child alive. *)
Inductive ending : Type :=
| ChildExited
| TerminalError
| Raised (e : exn)
| StillRunning.

Section Iteration.

Context {St : Type}.
(** The body of the consuming [for] loop: it sees its own state, the
    driver's [_stdin_queue] and the yielded line. *)
Variable body : St → list string → string → result (St * list string).

(** [yield from]: the consumer's body runs once per yielded line. *)
Fixpoint for_each (lines : list string) (st : St) (queue : list string)
    : result (St * list string) :=
  match lines with
  | [] => Ok (st, queue)
  | line :: rest =>
      match body st queue line with
      | Raise e => Raise e
      | Ok (st', queue') => for_each rest st' queue'
      end
  end.

(** [for line in proc: body], one pass of the [while] loop per tick.  Every
    read is taken to succeed and to hand over all that is pending, up to
    the 1,000,000 characters asked for, and what is read to be ASCII;
    [Process_iter_passes] further down lifts both. *)
Fixpoint Process_iter (ticks : list tick) (proc : Process) (st : St)
    : ending * St * Process :=
  match ticks with
  | [] => (StillRunning, st, proc)
  | t :: later =>
      let arrived := pending proc +:+ emitted t in
      let proc := {| pending := arrived; child_stdin := child_stdin proc;
                     _stdin_queue := _stdin_queue proc |} in
      if exited t then (ChildExited, st, proc)
      else if errored t then (TerminalError, st, proc)
      else
        let '(data, unread) :=
          match arrived with
          | EmptyString => (None, arrived)
          | String _ _ => let '(d, u) := os_read 1000000 arrived in (Some d, u)
          end in
        let outcome :=
          match data with
          | None => Ok (st, _stdin_queue proc)
          | Some d => for_each (chunk_lines d) st (_stdin_queue proc)
          end in
        match outcome with
        | Raise e =>
            (Raised e, st,
             {| pending := unread; child_stdin := child_stdin proc;
                _stdin_queue := _stdin_queue proc |})
        | Ok (st', queue) =>
            Process_iter later
              (deliver (writable t)
                 {| pending := unread; child_stdin := child_stdin proc;
                    _stdin_queue := queue |})
              st'
        end
  end.

End Iteration.

(** [list(proc)]: the consumer that only collects the yielded lines. *)
Definition collect (seen : list string) (queue : list string) (line : string)
    : result (list string * list string) :=
  Ok (seen ++ [line], queue).

(** The engine run over the lines of a list, as the [for] loop sees them. *)
Definition revert_lines (hook : debugger_reply) (lines : list string)
    (st : session) (queue : list string) : result (session * list string) :=
  for_each (revert_body hook) lines st queue.

(** [revert_ignored_changes(permanently_ignored)] against a terminal that
    behaves as [ticks] tell. *)
Definition revert_ignored_changes (hook : debugger_reply) (ticks : list tick)
    (policy : PyValue) : ending * session * Process :=
  Process_iter (revert_body hook) ticks Process_init (start policy).

(** ** Diff texts built from files and hunks *)

(** A hunk as [git diff] prints it: the [@@] header, unchanged lines before
    the change, the run of [+]/[-] lines, and unchanged lines after it.
    Context lines are given without their leading blank, body lines with
    their sign. *)
Record hunk : Type := {
  h_header : string;
  h_lead : list string;
  h_body : list string;
  h_trail : list string;
}.

(** The part of a diff for one file that exists on both sides: the
    [diff --git] line, the extended header lines that may come before the
    [index] line (modes, similarity, renames), the [index] line, the two
    path lines and the hunks. *)
Record file_diff : Type := {
  f_a_path : string;
  f_b_path : string;
  f_extended : list string;
  f_index : string;
  f_hunks : list hunk;
}.

Definition context_line (text : string) : string := String " " text.

Definition render_hunk (h : hunk) : list string :=
  ("@@ " +:+ h_header h)
    :: map context_line (h_lead h) ++ h_body h ++ map context_line (h_trail h).

Definition render_hunks (hs : list hunk) : list string :=
  concat (map render_hunk hs).

Definition render_file (f : file_diff) : list string :=
  ["diff --git a/" +:+ f_a_path f +:+ " b/" +:+ f_b_path f]
  ++ f_extended f
  ++ ["index " +:+ f_index f;
      "--- a/" +:+ f_a_path f;
      "+++ b/" +:+ f_b_path f]
  ++ render_hunks (f_hunks f).

Definition render_files (d : list file_diff) : list string :=
  concat (map render_file d).

(** Every line followed by a newline. *)
Fixpoint join_lines (lines : list string) : string :=
  match lines with
  | [] => ""
  | line :: rest => line +:+ Py.nl +:+ join_lines rest
  end.

Definition render_diff (d : list file_diff) : string :=
  join_lines (render_files d).

(** A text that stays on one line. *)
Fixpoint one_line (s : string) : bool :=
  match s with
  | EmptyString => true
  | String c s' => negb (Py.is_linebreak c) && one_line s'
  end.

(** A well-formed hunk: single-line texts, and a non-empty body of lines
    that carry a sign.  A well-formed file: a path that is not empty,
    single-line texts, and extended header lines that carry no sign. *)
Definition wf_hunk (h : hunk) : Prop :=
  one_line (h_header h) = true ∧
  Forall (λ l, one_line l = true) (h_lead h) ∧
  Forall (λ l, one_line l = true) (h_trail h) ∧
  h_body h ≠ [] ∧
  Forall (λ l, one_line l = true ∧ Py.startswith_any l ["+"; "-"] = true)
    (h_body h).

Definition wf_file (f : file_diff) : Prop :=
  f_a_path f ≠ "" ∧
  one_line (f_a_path f) = true ∧ one_line (f_b_path f) = true ∧
  one_line (f_index f) = true ∧
  Forall (λ l, one_line l = true ∧ Py.startswith_any l ["+"; "-"] = false)
    (f_extended f) ∧
  Forall wf_hunk (f_hunks f).

Definition wf_diff (d : list file_diff) : Prop := Forall wf_file d.

(** Neighbouring hunks of a file have an unchanged line between them. *)
Fixpoint separated (hs : list hunk) : Prop :=
  match hs with
  | h1 :: ((h2 :: _) as rest) =>
      (h_trail h1 ≠ [] ∨ h_lead h2 ≠ []) ∧ separated rest
  | _ => True
  end.

(** No changed line reads like a path marker. *)
Definition plain_body (h : hunk) : Prop :=
  Forall (λ l, Py.startswith l "--- a/" = false ∧
               Py.startswith l "+++ b/" = false) (h_body h).

Definition segmentable (d : list file_diff) : Prop :=
  Forall (λ f, separated (f_hunks f) ∧ Forall plain_body (f_hunks f)) d.


(** One record per hunk, under the [--- a/] path of its file. *)
Definition file_records (f : file_diff) : list record :=
  map (λ h, (Some (f_a_path f), h_body h)) (f_hunks f).

Definition diff_records (d : list file_diff) : list record :=
  concat (map file_records d).

(** The lines flush a pending change before anything else happens to it. *)
Definition flushing (dp a : option string) (lines : list string) : Prop :=
  ∀ b chg,
    extract_loop dp lines a b chg
    = flush a chg ++ extract_loop dp lines a b [].


(** Hunks kept apart by unchanged lines, in two files. *)
Definition spaced_hunks : list file_diff :=
  [{| f_a_path := "a.txt"; f_b_path := "a.txt"; f_extended := [];
      f_index := "1111111..2222222 100644";
      f_hunks :=
        [{| h_header := "-1,2 +1,2 @@"; h_lead := [];
            h_body := ["-a"; "+b"]; h_trail := ["x"] |};
         {| h_header := "-9,2 +9,2 @@"; h_lead := ["y"];
            h_body := ["-c"; "+d"]; h_trail := [] |}] |};
   {| f_a_path := "b.txt"; f_b_path := "b.txt"; f_extended := [];
      f_index := "3333333..4444444 100644";
      f_hunks :=
        [{| h_header := "-3 +3,2 @@"; h_lead := ["z"];
            h_body := ["+e"]; h_trail := [] |}] |}].




(** ** Sample prompts *)

(** The line [git checkout -p] asks its question on. *)
Definition discard_prompt : string :=
  "(1/1) Discard this hunk from worktree [y,n,q,a,d,e,?]? ".

(** The buffered text of one hunk that adds the line [foo] to [a.txt]. *)
Definition foo_hunk : string :=
  join_lines ["diff --git a/a.txt b/a.txt"; "index 1111111..2222222 100644";
              "--- a/a.txt"; "+++ b/a.txt"; "@@ -1 +1,2 @@"; " x"; "+foo"].

(** A store that ignores exactly that change. *)
Definition foo_store : IgnoredSuggestionStore :=
  {| _ignores := {[ Some "a.txt" := [["+foo"]] ]};
     purge_unused := false;
     _used := [] |}.

(** Two runs of changed lines with an unchanged line between them and no
    header. *)
Definition two_runs : string :=
  join_lines ["-a"; "+b"; " x"; "-c"; "+d"].

(** ** The prompt windows, in the words of the specification *)

(** The text accumulated since the previous decision, or since the start,
    for every line that carries the recognition phrase, and the text left
    over at the end: [cur] is what has accumulated so far. *)
Fixpoint prompt_windows (cur : string) (lines : list string)
    : list string * string :=
  match lines with
  | [] => ([], cur)
  | line :: rest =>
      if Py.contains line prompt_phrase then
        let '(windows, leftover) := prompt_windows "" rest in
        (cur :: windows, leftover)
      else prompt_windows (cur +:+ line +:+ Py.nl) rest
  end.



(** ** What the driver's loop leaves unread *)





(** ** The driver's loop with its reads spelt out

    [Process_iter] lets every read take all that is pending and takes the
    decoding for granted.  Here a pass also tells what [os.read] does when
    it is called: it hands over the front of the pending output, as much as
    the terminal gives at once and never more than the 1,000,000 asked for,
    or it raises [OSError]; and [decode()] is followed where the embedding
    can follow it. *)

(** Bytes that are ASCII characters. *)
Fixpoint ascii_only (s : string) : bool :=
  match s with
  | EmptyString => true
  | String (Ascii _ _ _ _ _ _ _ b7) s' => negb b7 && ascii_only s'
  end.

(** [bytes.decode()]: ASCII bytes are their own text.  Other bytes either
    raise [UnicodeDecodeError] or decode to characters that the strings of
    this embedding need not hold: [None]. *)
Definition decode (bytes : string) : option string :=
  if ascii_only bytes then Some bytes else None.

Inductive read_outcome : Type :=
| Hands (granted : positive)  (** at most [granted] bytes are returned *)
| Fails.                      (** [os.read] raises [OSError] *)

Record pass : Type := {
  p_tick : tick;
  p_read : read_outcome;
}.

(** The size of the read of a pass: [os.read(master, 1_000_000)]. *)
Definition read_size (p : pass) : N :=
  match p_read p with
  | Hands granted => N.min 1000000 (Npos granted)
  | Fails => 0
  end.

(** How the iteration over the passes comes out. *)
Inductive run (St : Type) : Type :=
| Finished (e : ending) (st : St) (proc : Process)
| OSError       (** raised by [os.read] *)
| NotDecoded.   (** [decode()] raised, or left the embedding *)

Arguments Finished {St} e st proc.
Arguments OSError {St}.
Arguments NotDecoded {St}.

Section Passes.

Context {St : Type}.
Variable body : St → list string → string → result (St * list string).

(** [for line in proc: body], one pass of the [while] loop per element. *)
Fixpoint Process_iter_passes (ps : list pass) (proc : Process) (st : St)
    : run St :=
  match ps with
  | [] => Finished StillRunning st proc
  | p :: later =>
      let t := p_tick p in
      let arrived := pending proc +:+ emitted t in
      let proc := {| pending := arrived; child_stdin := child_stdin proc;
                     _stdin_queue := _stdin_queue proc |} in
      if exited t then Finished ChildExited st proc
      else if errored t then Finished TerminalError st proc
      else
        match p_read p with
        | Fails => OSError
        | Hands _ =>
            match arrived with
            | EmptyString =>
                Process_iter_passes later (deliver (writable t) proc) st
            | String _ _ =>
                let '(bytes, unread) := os_read (read_size p) arrived in
                match decode bytes with
                | None => NotDecoded
                | Some data =>
                    match for_each body (chunk_lines data) st
                            (_stdin_queue proc) with
                    | Raise e =>
                        Finished (Raised e) st
                          {| pending := unread;
                             child_stdin := child_stdin proc;
                             _stdin_queue := _stdin_queue proc |}
                    | Ok (st', queue) =>
                        Process_iter_passes later
                          (deliver (writable t)
                             {| pending := unread;
                                child_stdin := child_stdin proc;
                                _stdin_queue := queue |})
                          st'
                    end
                end
            end
        end
  end.

End Passes.


(** A pass of [Process_iter]: the read takes all it is asked for. *)
Definition full_read (t : tick) : pass :=
  {| p_tick := t; p_read := Hands 1000000 |}.








(** ** The rest of the store, the recorder and the command *)

(** A line the extractor takes into a change: it carries a sign and does
    not read like one of the two path markers. *)
Definition is_changed_line (line : string) : bool :=
  Py.startswith_any line ["+"; "-"]
  && negb (Py.startswith line "--- a/")
  && negb (Py.startswith line "+++ b/").



(** [purged.setdefault(path, []).append(suggestion)]. *)
Definition setdefault_append (path : option string) (suggestion : change)
    (purged : gmap (option string) (list change))
    : gmap (option string) (list change) :=
  <[path := default [] (purged !! path) ++ [suggestion]]> purged.

(** The inner loop of [__exit__] over the suggestions of one path. *)
Definition purge_path (used : list record) (path : option string)
    (suggestions : list change)
    (purged : gmap (option string) (list change))
    : gmap (option string) (list change) :=
  foldl (λ acc suggestion,
           if bool_decide ((path, suggestion) ∈ used)
           then setdefault_append path suggestion acc else acc)
        purged suggestions.

(** [__exit__]: the store as it is left; its [_ignores] is what is written
    to the file. *)
Definition __exit__ (self : IgnoredSuggestionStore) : IgnoredSuggestionStore :=
  if purge_unused self then
    {| _ignores := map_fold (purge_path (_used self)) ∅ (_ignores self);
       purge_unused := purge_unused self;
       _used := _used self |}
  else self.

(** Whether the store's own membership test finds the record. *)
Definition ignored (self : IgnoredSuggestionStore) (r : record) : Prop :=
  r.2 ∈ default [] (_ignores self !! r.1).

(** How the recorder ends: with the object it was handed, or with the
    [AttributeError] of an object that has no [add]. *)
Inductive recorder_result : Type :=
| Remembered (policy : PyValue)
| AttributeError.

(** The [for] loop of [remember_discarded_changes] over the records the
    extractor yields. *)
Fixpoint remember_records (records : list record) (policy : PyValue)
    : recorder_result :=
  match records with
  | [] => Remembered policy
  | (path, chg) :: rest =>
      match policy with
      | VStore s => remember_records rest (VStore (add s path chg))
      | VNone | VList _ => AttributeError
      end
  end.

(** [remember_discarded_changes(permanently_ignored)], with the bytes that
    [git diff --no-ext-diff] printed as [stdout]: they are decoded and the
    loop runs over the records of the text.  There is no result where
    [decode()] is not followed. *)
Definition remember_discarded_changes (stdout : string) (policy : PyValue)
    : option recorder_result :=
  match decode stdout with
  | None => None
  | Some diff_output =>
      Some (remember_records (extract_changes diff_output None) policy)
  end.






(** [str.isspace] for one character (the code points below 256). *)
Definition isspace (c : ascii) : bool :=
  match c with
  | "009" | "010" | "011" | "012" | "013" | "028" | "029" | "030" | "031"
  | " " | "133" | "160" => true
  | _ => false
  end%char.

(** [s.lstrip()], [s.rstrip()] and [s.strip()] without an argument. *)
Fixpoint lstrip_space (s : string) : string :=
  match s with
  | EmptyString => EmptyString
  | String c s' => if isspace c then lstrip_space s' else s
  end.

Fixpoint rstrip_space (s : string) : string :=
  match s with
  | EmptyString => EmptyString
  | String c s' =>
      match rstrip_space s' with
      | EmptyString => if isspace c then EmptyString else String c EmptyString
      | rest => String c rest
      end
  end.

Definition strip (s : string) : string := rstrip_space (lstrip_space s).

(** [git_is_clean()], with the output of [git status --porcelain] as
    [stdout]: [not stdout.strip()]. *)
Definition git_is_clean (stdout : string) : bool :=
  negb (Py.truthy (Some (strip stdout))).

(** The terminal's line ending, and whole lines as the terminal sends
    them. *)
Definition crlf : string := String Py.CR Py.nl.

Fixpoint join_crlf (lines : list string) : string :=
  match lines with
  | [] => ""
  | line :: rest => line +:+ crlf +:+ join_crlf rest
  end.

(** A line that [chunk_lines] hands on as it is: no newline in it and no
    carriage return at its end. *)
Fixpoint plain_line (s : string) : bool :=
  match s with
  | EmptyString => true
  | String c s' =>
      negb (bool_decide (c = Py.LF))
      && match s' with
         | EmptyString => negb (bool_decide (c = Py.CR))
         | String _ _ => plain_line s'
         end
  end.

(** The same store with [purge_unused] set. *)
Definition purging (self : IgnoredSuggestionStore) : IgnoredSuggestionStore :=
  {| _ignores := _ignores self; purge_unused := true; _used := _used self |}.

(** A text of blanks only, in the sense of [str.isspace]. *)
Fixpoint all_space (s : string) : bool :=
  match s with
  | EmptyString => true
  | String c s' => isspace c && all_space s'
  end.

(** A pass in which the text of [two_runs] and the prompt arrive. *)
Definition two_runs_pass : tick :=
  {| emitted := two_runs +:+ discard_prompt; exited := false;
     errored := false; writable := true |}.

(** * Properties *)

(** ** The extractor *)

Lemma flush_signed a chg :
  Forall signed chg →
  Forall (λ r : record, r.2 ≠ [] ∧ Forall signed r.2) (flush a chg).
Proof.
  intros Hs. destruct chg as [|l chg]; cbn; [constructor|].
  constructor; [|constructor]. split; [discriminate|done].
Qed.

Lemma extract_loop_signed dp lines : ∀ a b chg,
  Forall signed chg →
  Forall (λ r : record, r.2 ≠ [] ∧ Forall signed r.2)
    (extract_loop dp lines a b chg).
Proof.
  induction lines as [|line rest IH]; intros a b chg Hs.
  - by apply flush_signed.
  - cbn [extract_loop].
    destruct (bool_decide _); [by apply IH|].
    destruct (Py.startswith_any line ["diff "; "index "]).
    { apply Forall_app; split; [by apply flush_signed | by apply IH]. }
    destruct (Py.startswith line "@@ "); [by apply IH|].
    destruct (Py.startswith line "--- a/"); [by apply IH|].
    destruct (Py.startswith line "+++ b/"); [by apply IH|].
    cbv zeta.
    destruct (Py.startswith_any line ["+"; "-"]) eqn:Hsign; cbn [negb].
    + apply IH, Forall_app; split; [done|]. by constructor.
    + apply Forall_app; split; [by apply flush_signed | by apply IH].
Qed.

Lemma answer_echo_unsigned k : is_answer_echo k → ¬ signed k.
Proof.
  unfold is_answer_echo, signed. intros Hk.
  repeat (apply elem_of_cons in Hk as [->|Hk]); try by vm_compute.
  by apply elem_of_nil in Hk.
Qed.

Lemma extract_changes_yields_signed_lines output dp :
  Forall (λ r : record, r.2 ≠ [] ∧ Forall signed r.2)
    (extract_changes output dp).
Proof. unfold extract_changes. by apply extract_loop_signed. Qed.

(** C10. Every change yielded by [extract_changes], for any text and any
    default path, is a non-empty list whose lines all start with [+] or
    [-]; no empty change is ever yielded. *)
Theorem extract_changes_yields_signed_runs output default_path :
  Forall (λ r : record,
            r.2 ≠ [] ∧
            Forall (λ line, Py.startswith_any line ["+"; "-"] = true) r.2)
    (extract_changes output default_path).
Proof. exact (extract_changes_yields_signed_lines output default_path). Qed.

Lemma extract_loop_echo_step dp k rest a b chg :
  is_answer_echo k →
  extract_loop dp (k :: rest) a b chg = extract_loop dp rest a b chg.
Proof.
  intros Hk. cbn [extract_loop]. by rewrite bool_decide_eq_true_2.
Qed.

Lemma extract_loop_echo_anywhere dp k pre : ∀ post a b chg,
  is_answer_echo k →
  extract_loop dp (pre ++ k :: post) a b chg
  = extract_loop dp (pre ++ post) a b chg.
Proof.
  induction pre as [|line pre IH]; intros post a b chg Hk.
  - by apply extract_loop_echo_step.
  - cbn [app extract_loop]. by rewrite !IH.
Qed.

(** C9. A line that is exactly [n], [y] or [s] is a no-op for
    [extract_changes]: the loop passes it with the change under
    construction carried on unflushed, so the result is that of the text's
    other lines, and no yielded change contains such a line. *)
Theorem answer_echo_is_noop default_path k (Hk : k ∈ ["n"; "y"; "s"]) :
  (∀ rest a_path b_path chg,
     extract_loop default_path (k :: rest) a_path b_path chg
     = extract_loop default_path rest a_path b_path chg) ∧
  (∀ output pre post,
     Py.splitlines output = pre ++ k :: post →
     extract_changes output default_path
     = extract_loop default_path (pre ++ post) None None []) ∧
  (∀ output r, r ∈ extract_changes output default_path → k ∉ r.2).
Proof.
  split; [|split].
  - intros. by apply extract_loop_echo_step.
  - intros output pre post Hsplit. unfold extract_changes.
    rewrite Hsplit. by apply extract_loop_echo_anywhere.
  - intros output r Hr Hin.
    pose proof (extract_changes_yields_signed_lines output default_path) as Hall.
    rewrite Forall_forall in Hall. destruct (Hall r Hr) as [_ Hsigned].
    rewrite Forall_forall in Hsigned.
    by apply (answer_echo_unsigned k Hk), Hsigned.
Qed.

Lemma answer_echo_is_noop_witness :
  "y" ∈ ["n"; "y"; "s"] ∧
  extract_loop None ["-old"; "y"; "+new"] None None []
  = extract_loop None ["-old"; "+new"] None None [].
Proof.
  assert (Hk : "y" ∈ ["n"; "y"; "s"]) by (right; left).
  split; [exact Hk|].
  destruct (answer_echo_is_noop None "y" Hk) as (_ & Hnoop & _).
  exact (Hnoop (join_lines ["-old"; "y"; "+new"]) ["-old"] ["+new"] eq_refl).
Defined.

Lemma flush_path a chg (p : option string) :
  (chg ≠ [] → a = p) → Forall (λ r : record, r.1 = p) (flush a chg).
Proof.
  intros Ha. destruct chg; cbn; constructor; [|constructor].
  apply Ha. discriminate.
Qed.

Lemma extract_loop_default_path p lines : ∀ a b chg,
  p ≠ "" →
  Forall (λ line, Py.startswith line "--- a/" = false) lines →
  (a = None ∨ a = Some p) →
  (chg ≠ [] → a = Some p) →
  Forall (λ r : record, r.1 = Some p) (extract_loop (Some p) lines a b chg).
Proof.
  induction lines as [|line rest IH]; intros a b chg Hp Hno Ha Hchg.
  - by apply flush_path.
  - apply Forall_cons in Hno as [Hline Hrest]. cbn [extract_loop].
    destruct (bool_decide _); [by apply IH|].
    destruct (Py.startswith_any line ["diff "; "index "]).
    { apply Forall_app; split; [by apply flush_path|].
      apply IH; auto. intros []; done. }
    destruct (Py.startswith line "@@ "); [by apply IH|].
    rewrite Hline.
    destruct (Py.startswith line "+++ b/"); [by apply IH|].
    cbv zeta.
    assert (Hset : (if negb (Py.truthy a) && Py.truthy (Some p)
                    then Some p else a) = Some p).
    { destruct Ha as [->| ->]; destruct p; cbn; congruence. }
    rewrite Hset.
    destruct (Py.startswith_any line ["+"; "-"]); cbn [negb].
    + apply IH; auto.
    + apply Forall_app; split; [by apply flush_path|]. by apply IH; auto.
Qed.

(** C8, as amended. For every text without a [--- a/] line and every
    non-empty default path handed to [extract_changes], every yielded
    record carries that default path. *)
Theorem default_path_is_used output p :
  p ≠ "" →
  no_path_marker output →
  Forall (λ r : record, r.1 = Some p) (extract_changes output (Some p)).
Proof.
  intros Hp Hno. unfold extract_changes.
  apply extract_loop_default_path; auto. done.
Qed.

Lemma default_path_is_used_witness :
  Forall (λ r : record, r.1 = Some "a.txt")
    (extract_changes ("-old" +:+ Py.nl +:+ "+new" +:+ Py.nl) (Some "a.txt")).
Proof.
  apply default_path_is_used; [discriminate|].
  unfold no_path_marker. vm_compute. repeat constructor.
Defined.

(** C8, as stated, fails for the empty default path: it is supplied, yet
    the record of the text [+x] carries [None]. *)
Lemma empty_default_path_is_dropped :
  no_path_marker "+x" ∧
  extract_changes "+x" (Some "") = [(None, ["+x"])] ∧
  ¬ Forall (λ r : record, r.1 = Some "") (extract_changes "+x" (Some "")).
Proof.
  split; [|split].
  - unfold no_path_marker. vm_compute. repeat constructor.
  - reflexivity.
  - intros H. apply Forall_cons in H as [H _]. discriminate H.
Qed.

(** *** The generator's list objects *)

Lemma deref_alloc h : deref (alloc h).2 (alloc h).1 = [].
Proof.
  unfold deref, alloc; cbn [fst snd].
  by rewrite lookup_app_r, Nat.sub_diag by lia.
Qed.

Lemma lookup_alloc h l : l < length h → (alloc h).2 !! l = h !! l.
Proof. intros Hl. unfold alloc; cbn [fst snd]. by rewrite lookup_app_l. Qed.

Lemma deref_append_at h chg line :
  chg < length h → deref (append_at chg line h) chg = deref h chg ++ [line].
Proof.
  intros Hlt. unfold deref, append_at.
  destruct (lookup_lt_is_Some_2 h chg Hlt) as [c Hc].
  by rewrite list_lookup_alter_eq, Hc.
Qed.

Lemma observe_agree h h' ys :
  Forall (λ y : option string * loc, h' !! y.2 = h !! y.2) ys →
  observe h' ys = observe h ys.
Proof.
  induction 1 as [|y ys Hy _ IH]; [done|].
  unfold observe, deref in *. cbn [map]. by rewrite Hy, IH.
Qed.

Lemma observe_flush_ref h h' a chg :
  h' !! chg = h !! chg →
  observe h' (flush_ref a chg h) = flush a (deref h chg).
Proof.
  intros Hsame. unfold flush_ref, flush.
  destruct (deref h chg) eqn:Hd; [done|].
  cbn. unfold deref in *. by rewrite Hsame, Hd.
Qed.

Lemma flush_ref_bound a chg h n :
  chg < n → Forall (λ y : option string * loc, y.2 < n) (flush_ref a chg h).
Proof.
  intros Hlt. unfold flush_ref. destruct (deref h chg); by repeat constructor.
Qed.

(** A run of the loop touches only the list under construction and the
    lists it allocates itself, and what its references show at the end is
    what the list-valued loop computes. *)
Lemma extract_loop_refs_spec dp lines : ∀ a b chg h ys h',
  chg < length h →
  extract_loop_refs dp lines a b chg h = (ys, h') →
  length h ≤ length h' ∧
  (∀ l, l < length h → l ≠ chg → h' !! l = h !! l) ∧
  Forall (λ y : option string * loc, y.2 < length h') ys ∧
  observe h' ys = extract_loop dp lines a b (deref h chg).
Proof.
  induction lines as [|line rest IH]; intros a b chg h ys h' Hlt Hrun.
  - cbn in Hrun. injection Hrun as <- <-. repeat split; auto.
    + by apply flush_ref_bound.
    + by apply observe_flush_ref.
  - cbn [extract_loop_refs extract_loop] in *.
    assert (Hfresh : ∀ af a' b' ys0 more h0,
      extract_loop_refs dp rest a' b' (alloc h).1 (alloc h).2 = (more, h0) →
      ys0 = flush_ref af chg h ++ more →
      length h ≤ length h0 ∧
      (∀ l, l < length h → l ≠ chg → h0 !! l = h !! l) ∧
      Forall (λ y : option string * loc, y.2 < length h0) ys0 ∧
      observe h0 ys0 = flush af (deref h chg) ++ extract_loop dp rest a' b' []).
    { intros af a' b' ys0 more h0 Hmore ->.
      apply IH in Hmore as (Hlen & Hkeep & Hbound & Hobs);
        [|unfold alloc; cbn; rewrite length_app; cbn; lia].
      rewrite deref_alloc in Hobs.
      assert (Hlen' : length h < length h0).
      { revert Hlen. unfold alloc; cbn. rewrite length_app; cbn. lia. }
      assert (Hold : ∀ l, l < length h → h0 !! l = h !! l).
      { intros l Hl. rewrite Hkeep.
        - by apply lookup_alloc.
        - unfold alloc; cbn. rewrite length_app; cbn. lia.
        - unfold alloc; cbn. lia. }
      repeat split; [lia|auto| |].
      - apply Forall_app; split; [apply flush_ref_bound; lia|done].
      - unfold observe. rewrite map_app. fold (observe h0 more).
        fold (observe h0 (flush_ref af chg h)).
        rewrite Hobs. f_equal. apply observe_flush_ref. by apply Hold. }
    destruct (bool_decide _); [by eapply IH|].
    destruct (Py.startswith_any line ["diff "; "index "]).
    { destruct (alloc h) as [chg' h1] eqn:Halloc.
      destruct (extract_loop_refs dp rest None None chg' h1)
        as [more h0] eqn:Hmore.
      injection Hrun as <- <-. eapply Hfresh; [exact Hmore|done]. }
    destruct (Py.startswith line "@@ "); [by eapply IH|].
    destruct (Py.startswith line "--- a/"); [by eapply IH|].
    destruct (Py.startswith line "+++ b/"); [by eapply IH|].
    cbv zeta in *.
    destruct (Py.startswith_any line ["+"; "-"]); cbn [negb] in *.
    + apply IH in Hrun as (Hlen & Hkeep & Hbound & Hobs);
        [|unfold append_at; by rewrite length_alter].
      unfold append_at in Hlen, Hkeep. rewrite length_alter in Hlen, Hkeep.
      repeat split; auto.
      * intros l Hl Hne. rewrite Hkeep by done.
        by rewrite list_lookup_alter_ne.
      * by rewrite Hobs, deref_append_at.
    + destruct (alloc h) as [chg' h1] eqn:Halloc.
      match type of Hrun with
      | (let '(_, _) := ?run in _) = _ => destruct run as [more h0] eqn:Hmore
      end.
      injection Hrun as <- <-. eapply Hfresh; [exact Hmore|done].
Qed.

Lemma extract_changes_refs_spec output dp h ys h' :
  extract_changes_refs output dp h = (ys, h') →
  (∀ l, l < length h → h' !! l = h !! l) ∧
  Forall (λ y : option string * loc, y.2 < length h') ys ∧
  observe h' ys = extract_changes output dp.
Proof.
  unfold extract_changes_refs, extract_changes. intros Hrun.
  destruct (alloc h) as [chg h1] eqn:Halloc.
  assert (Hchg : chg = (alloc h).1) by by rewrite Halloc.
  assert (Hh1 : h1 = (alloc h).2) by by rewrite Halloc.
  apply extract_loop_refs_spec in Hrun as (Hlen & Hkeep & Hbound & Hobs).
  - split; [|split]; [|done|].
    + intros l Hl. rewrite Hkeep, Hh1.
      * by apply lookup_alloc.
      * subst h1. unfold alloc; cbn. rewrite length_app; cbn. lia.
      * subst chg. unfold alloc; cbn. lia.
    + rewrite Hobs. subst chg h1. by rewrite deref_alloc.
  - subst chg h1. unfold alloc; cbn. rewrite length_app; cbn. lia.
Qed.

(** C7. [extract_changes] is deterministic and free of side effects: a run
    changes no list that existed before it, two runs on the same text and
    default path yield the same sequence of records from whatever heaps
    they start, and a second run leaves what the first one yielded as it
    was. *)
Theorem extract_changes_is_pure output default_path :
  (∀ h k,
     let '(ys1, h1) := extract_changes_refs output default_path h in
     let '(ys2, k2) := extract_changes_refs output default_path k in
     observe h1 ys1 = observe k2 ys2 ∧
     observe h1 ys1 = extract_changes output default_path ∧
     ∀ l, l < length h → h1 !! l = h !! l) ∧
  (∀ h,
     let '(ys1, h1) := extract_changes_refs output default_path h in
     let '(ys2, h2) := extract_changes_refs output default_path h1 in
     observe h2 ys1 = observe h1 ys1 ∧ observe h2 ys2 = observe h1 ys1).
Proof.
  split.
  - intros h k.
    destruct (extract_changes_refs output default_path h) as [ys1 h1] eqn:H1.
    destruct (extract_changes_refs output default_path k) as [ys2 k2] eqn:H2.
    apply extract_changes_refs_spec in H1 as (Hkeep1 & _ & Hobs1).
    apply extract_changes_refs_spec in H2 as (_ & _ & Hobs2).
    repeat split; [congruence|done|done].
  - intros h.
    destruct (extract_changes_refs output default_path h) as [ys1 h1] eqn:H1.
    destruct (extract_changes_refs output default_path h1) as [ys2 h2] eqn:H2.
    apply extract_changes_refs_spec in H1 as (_ & Hbound1 & Hobs1).
    apply extract_changes_refs_spec in H2 as (Hkeep2 & _ & Hobs2).
    split; [|congruence].
    apply observe_agree. eapply Forall_impl; [exact Hbound1|].
    intros y Hy. by apply Hkeep2.
Qed.

(** *** Texts put together from lines *)

Lemma append_cons (c : ascii) (s t : string) :
  String c s +:+ t = String c (s +:+ t).
Proof. reflexivity. Qed.

Lemma one_line_append s t : one_line (s +:+ t) = one_line s && one_line t.
Proof.
  induction s as [|c s IH]; [done|].
  rewrite append_cons. cbn [one_line]. rewrite IH. by destruct (Py.is_linebreak c).
Qed.

Lemma splitlines_line l t :
  one_line l = true →
  Py.splitlines (l +:+ Py.nl +:+ t) = l :: Py.splitlines t.
Proof.
  induction l as [|c l IH]; intros Hl.
  - reflexivity.
  - cbn [one_line] in Hl. apply andb_true_iff in Hl as [Hc Hl].
    rewrite append_cons. cbn [Py.splitlines].
    apply negb_true_iff in Hc. rewrite Hc, IH by done. done.
Qed.

Lemma splitlines_join_lines lines :
  Forall (λ l, one_line l = true) lines →
  Py.splitlines (join_lines lines) = lines.
Proof.
  induction 1 as [|l lines Hl _ IH]; [done|].
  cbn [join_lines]. by rewrite splitlines_line, IH.
Qed.

(** *** One turn of the loop on each kind of diff line *)

Lemma startswith_inv p : ∀ s, Py.startswith s p = true → ∃ t, s = p +:+ t.
Proof.
  induction p as [|c p IH]; intros s Hs; [by exists s|].
  destruct s as [|c' s]; [done|]. cbn [Py.startswith] in Hs.
  destruct (decide (c = c')) as [->|]; [|done].
  destruct (IH s Hs) as [t ->]. by exists t.
Qed.

Lemma loop_diff_line dp x rest a b chg :
  extract_loop dp (("diff --git a/" +:+ x) :: rest) a b chg
  = flush a chg ++ extract_loop dp rest None None [].
Proof. reflexivity. Qed.

Lemma loop_index_line dp x rest a b chg :
  extract_loop dp (("index " +:+ x) :: rest) a b chg
  = flush a chg ++ extract_loop dp rest None None [].
Proof. reflexivity. Qed.

Lemma loop_extended_lines dp extended x : ∀ rest a b,
  Forall (λ l, one_line l = true ∧ Py.startswith_any l ["+"; "-"] = false)
    extended →
  extract_loop dp (extended ++ ("index " +:+ x) :: rest) a b []
  = extract_loop dp rest None None [].
Proof.
  induction extended as [|l extended IH]; intros rest a b Hext.
  - cbn [app]. by rewrite loop_index_line.
  - apply Forall_cons in Hext as [[_ Hl] Hext]. cbn [app extract_loop].
    destruct (bool_decide _); [by apply IH|].
    destruct (Py.startswith_any l ["diff "; "index "]);
      [cbn [flush app]; by apply IH|].
    destruct (Py.startswith l "@@ "); [by apply IH|].
    destruct (Py.startswith l "--- a/") eqn:Ha.
    { by apply startswith_inv in Ha as [t ->]. }
    destruct (Py.startswith l "+++ b/") eqn:Hb.
    { by apply startswith_inv in Hb as [t ->]. }
    cbv zeta. rewrite Hl. cbn [negb flush app]. by apply IH.
Qed.

Lemma loop_a_path_line dp p rest a b chg :
  extract_loop dp (("--- a/" +:+ p) :: rest) a b chg
  = extract_loop dp rest (Some p) b chg.
Proof. reflexivity. Qed.

Lemma loop_b_path_line dp q rest a b chg :
  extract_loop dp (("+++ b/" +:+ q) :: rest) a b chg
  = extract_loop dp rest a (Some q) chg.
Proof. reflexivity. Qed.

Lemma loop_hunk_header dp x rest a b chg :
  extract_loop dp (("@@ " +:+ x) :: rest) a b chg
  = extract_loop dp rest a b chg.
Proof. reflexivity. Qed.

Lemma loop_context_line dp c p text rest b chg :
  extract_loop dp (context_line text :: rest) (Some (String c p)) b chg
  = flush (Some (String c p)) chg
    ++ extract_loop dp rest (Some (String c p)) b [].
Proof. reflexivity. Qed.

Lemma signed_inv l : signed l → ∃ t, l = String "+" t ∨ l = String "-" t.
Proof.
  unfold signed. destruct l as [|c t]; [done|]. intros Hs. exists t.
  cbn in Hs. repeat case_decide; subst; auto. done.
Qed.

Lemma loop_body_line dp c p l rest b chg :
  signed l →
  Py.startswith l "--- a/" = false →
  Py.startswith l "+++ b/" = false →
  extract_loop dp (l :: rest) (Some (String c p)) b chg
  = extract_loop dp rest (Some (String c p)) b (chg ++ [l]).
Proof.
  intros Hs Ha Hb. cbn [extract_loop]. rewrite Ha, Hb.
  destruct (signed_inv l Hs) as [t [-> | ->]]; reflexivity.
Qed.

Lemma loop_body_run dp c p body : ∀ rest b chg,
  Forall signed body →
  Forall (λ l, Py.startswith l "--- a/" = false ∧
               Py.startswith l "+++ b/" = false) body →
  extract_loop dp (body ++ rest) (Some (String c p)) b chg
  = extract_loop dp rest (Some (String c p)) b (chg ++ body).
Proof.
  induction body as [|l body IH]; intros rest b chg Hs Hplain.
  - by rewrite app_nil_r.
  - apply Forall_cons in Hs as [Hl Hs].
    apply Forall_cons in Hplain as [[Ha Hb] Hplain].
    cbn [app]. rewrite loop_body_line, IH by done.
    by rewrite <- app_assoc.
Qed.

Lemma loop_context_idle dp c p texts : ∀ rest b,
  extract_loop dp (map context_line texts ++ rest) (Some (String c p)) b []
  = extract_loop dp rest (Some (String c p)) b [].
Proof.
  induction texts as [|t texts IH]; intros rest b; [done|].
  cbn [map app]. by rewrite loop_context_line, IH.
Qed.

Lemma loop_context_run dp c p texts rest b chg :
  texts ≠ [] →
  extract_loop dp (map context_line texts ++ rest) (Some (String c p)) b chg
  = flush (Some (String c p)) chg
    ++ extract_loop dp rest (Some (String c p)) b [].
Proof.
  destruct texts as [|t texts]; [done|]. intros _.
  cbn [map app]. by rewrite loop_context_line, loop_context_idle.
Qed.

Lemma flushing_nil dp a : flushing dp a [].
Proof. intros b chg. cbn. by rewrite app_nil_r. Qed.

Lemma flushing_files dp a d : flushing dp a (render_files d).
Proof.
  destruct d as [|f d]; [apply flushing_nil|].
  intros b chg. unfold render_files. cbn [map concat render_file app].
  by rewrite !loop_diff_line.
Qed.

Lemma flushing_hunk_with_lead dp c p h rest :
  h_lead h ≠ [] → flushing dp (Some (String c p)) (render_hunk h ++ rest).
Proof.
  intros Hlead b chg. unfold render_hunk. cbn [app].
  rewrite !loop_hunk_header, <- !app_assoc.
  rewrite loop_context_run by done. by rewrite loop_context_idle.
Qed.

Lemma loop_hunk dp c p h rest b :
  wf_hunk h → plain_body h →
  (h_trail h ≠ [] ∨ flushing dp (Some (String c p)) rest) →
  extract_loop dp (render_hunk h ++ rest) (Some (String c p)) b []
  = (Some (String c p), h_body h)
      :: extract_loop dp rest (Some (String c p)) b [].
Proof.
  intros (_ & _ & _ & Hne & Hbody) Hplain Hnext.
  unfold render_hunk. cbn [app].
  rewrite loop_hunk_header, <- !app_assoc, loop_context_idle.
  rewrite loop_body_run; [|eapply Forall_impl; [exact Hbody|]; by intros ? []|done].
  cbn [app].
  assert (Hflush : flush (Some (String c p)) (h_body h)
                   = [(Some (String c p), h_body h)]).
  { unfold flush. by destruct (h_body h). }
  destruct (h_trail h) as [|t trail] eqn:Htrail.
  - destruct Hnext as [|Hnext]; [done|].
    cbn [map app]. by rewrite Hnext, Hflush.
  - rewrite loop_context_run by done. by rewrite Hflush.
Qed.

Lemma loop_hunks dp c p hs : ∀ rest b,
  Forall wf_hunk hs → Forall plain_body hs → separated hs →
  flushing dp (Some (String c p)) rest →
  extract_loop dp (render_hunks hs ++ rest) (Some (String c p)) b []
  = map (λ h, (Some (String c p), h_body h)) hs
    ++ extract_loop dp rest (Some (String c p)) b [].
Proof.
  induction hs as [|h hs IH]; intros rest b Hwf Hplain Hsep Hrest; [done|].
  apply Forall_cons in Hwf as [Hh Hwf].
  apply Forall_cons in Hplain as [Hp Hplain].
  unfold render_hunks. cbn [map concat]. fold (render_hunks hs).
  rewrite <- app_assoc, loop_hunk; [| done | done |].
  - cbn [app]. f_equal. destruct hs as [|h2 hs]; [done|].
    apply IH; try done. apply Hsep.
  - destruct hs as [|h2 hs]; [by right|].
    destruct Hsep as [[Htrail | Hlead] _]; [by left|right].
    unfold render_hunks. cbn [map concat]. rewrite <- app_assoc.
    by apply flushing_hunk_with_lead.
Qed.

Lemma loop_file dp f rest a b :
  wf_file f → separated (f_hunks f) → Forall plain_body (f_hunks f) →
  flushing dp (Some (f_a_path f)) rest →
  extract_loop dp (render_file f ++ rest) a b []
  = file_records f
    ++ extract_loop dp rest (Some (f_a_path f)) (Some (f_b_path f)) [].
Proof.
  intros (Hpath & _ & _ & _ & Hext & Hwf) Hsep Hplain Hrest.
  unfold render_file, file_records. cbn [app].
  rewrite loop_diff_line. cbn [flush app].
  rewrite <- !app_assoc. cbn [app].
  rewrite loop_extended_lines, loop_a_path_line, loop_b_path_line by done.
  destruct (f_a_path f) as [|c p]; [done|].
  by apply loop_hunks.
Qed.

Lemma loop_files dp d : ∀ a b,
  wf_diff d → segmentable d →
  extract_loop dp (render_files d) a b [] = diff_records d.
Proof.
  induction d as [|f d IH]; intros a b Hwf Hseg; [done|].
  apply Forall_cons in Hwf as [Hf Hwf].
  apply Forall_cons in Hseg as [[Hsep Hplain] Hseg].
  unfold render_files, diff_records. cbn [map concat].
  fold (render_files d). fold (diff_records d).
  rewrite loop_file; [|done|done|done|apply flushing_files].
  by rewrite IH.
Qed.

(** *** Rendered lines stay on their line *)

Lemma one_line_context texts :
  Forall (λ l, one_line l = true) texts →
  Forall (λ l, one_line l = true) (map context_line texts).
Proof. intros H. apply Forall_map. eapply Forall_impl; [exact H|]. done. Qed.

Lemma one_line_hunk h :
  wf_hunk h → Forall (λ l, one_line l = true) (render_hunk h).
Proof.
  intros (Hh & Hlead & Htrail & _ & Hbody). unfold render_hunk.
  constructor; [by rewrite one_line_append, Hh|].
  repeat (apply Forall_app; split); try by apply one_line_context.
  eapply Forall_impl; [exact Hbody|]. by intros ? [].
Qed.

Lemma one_line_file f :
  wf_file f → Forall (λ l, one_line l = true) (render_file f).
Proof.
  intros (_ & Ha & Hb & Hi & Hext & Hwf). unfold render_file.
  repeat (apply Forall_app; split).
  - repeat constructor; rewrite ?one_line_append, ?Ha, ?Hb; done.
  - eapply Forall_impl; [exact Hext|]. by intros l [Hl _].
  - repeat constructor; rewrite ?one_line_append, ?Ha, ?Hb, ?Hi; done.
  - unfold render_hunks. apply Forall_concat, Forall_map.
    eapply Forall_impl; [exact Hwf|]. apply one_line_hunk.
Qed.

Lemma one_line_files d :
  wf_diff d → Forall (λ l, one_line l = true) (render_files d).
Proof.
  intros Hwf. unfold render_files. apply Forall_concat, Forall_map.
  eapply Forall_impl; [exact Hwf|]. apply one_line_file.
Qed.





(** ** The decision engine *)

(** C3. Whenever the text buffered for a recognised discard prompt extracts
    to more than one change, the engine queues the single answer [s] for
    that prompt, and neither [y] nor [n]. *)
Theorem ambiguous_prompt_is_split hook st queue line :
  Py.contains line prompt_phrase = true →
  1 < length (extract_changes (buffer st) (path st)) →
  ∃ st', revert_body hook st queue line = Ok (st', queue ++ ["s"]) ∧
         buffer st' = "" ∧
         decided st' = decided st
                       ++ [{| d_text := buffer st; d_answer := Some "s" |}].
Proof.
  intros Hprompt Hmany. unfold revert_body. rewrite Hprompt.
  destruct (extract_changes (buffer st) (path st)) as [|[p1 c1] [|r2 rs]];
    cbn in Hmany; [lia|lia|].
  eexists; split; [reflexivity|]. by split.
Qed.

Lemma ambiguous_prompt_is_split_witness :
  ∃ st', revert_body Continue
           {| buffer := two_runs; path := Some "a.txt";
              permanently_ignored := VNone; decided := [] |}
           [] discard_prompt
         = Ok (st', [] ++ ["s"]) ∧
         buffer st' = "" ∧
         decided st' = [] ++ [{| d_text := two_runs; d_answer := Some "s" |}].
Proof.
  apply (ambiguous_prompt_is_split Continue
           {| buffer := two_runs; path := Some "a.txt";
              permanently_ignored := VNone; decided := [] |}).
  - reflexivity.
  - vm_compute. lia.
Defined.

(** What the engine does on a prompt whose buffer holds one change, for a
    container that supports [in]. *)
Lemma single_hunk_with_list_policy hook st queue line l p chg :
  Py.contains line prompt_phrase = true →
  extract_changes (buffer st) (path st) = [(p, chg)] →
  permanently_ignored st = VList l →
  ∃ st', revert_body hook st queue line
         = Ok (st', queue ++ [if bool_decide ((p, chg) ∈ l) then "y" else "n"]) ∧
         buffer st' = "" ∧ path st' = p.
Proof.
  intros Hprompt Hone Hlist. unfold revert_body.
  rewrite Hprompt, Hone, Hlist. cbn [py_in].
  eexists; split; [reflexivity|]. by split.
Qed.

(** C1, on the code. With the store of the repository as the policy, a
    single-hunk prompt gets no answer at all: the class binds its membership
    test to the name [__contains___], so [in] finds no [__contains__] and
    raises [TypeError], although the method itself finds the pair among the
    ignored ones.  The same happens with [None], which is what [cli] passes
    because [__enter__] returns nothing. *)
Theorem store_membership_test_raises :
  extract_changes foo_hunk None = [(Some "a.txt", ["+foo"])] ∧
  (__contains___ foo_store (Some "a.txt", ["+foo"])).1 = true ∧
  lookup_method IgnoredSuggestionStore_methods "__contains__" = None ∧
  (∀ hook,
     revert_body hook
       {| buffer := foo_hunk; path := None;
          permanently_ignored := VStore foo_store; decided := [] |}
       [] discard_prompt
     = Raise TypeError) ∧
  (∀ hook,
     revert_body hook
       {| buffer := foo_hunk; path := None;
          permanently_ignored := VNone; decided := [] |}
       [] discard_prompt
     = Raise TypeError) ∧
  (∀ hook,
     revert_ignored_changes hook
       [{| emitted := foo_hunk +:+ discard_prompt; exited := false;
           errored := false; writable := true |}]
       (VStore foo_store)
     = (Raised TypeError, start (VStore foo_store), Process_init)).
Proof.
  split; [reflexivity|]. split; [by vm_compute|]. split; [reflexivity|].
  split; [|split]; intros hook; by vm_compute.
Qed.

(** C4, on the code. A recognised prompt whose buffer extracts to nothing
    makes the engine call [breakpoint()].  No answer is queued for it, but
    the session is not halted either: when the hook returns, the buffer is
    cleared and the loop goes on, here up to an answer for the next prompt.
    Only a debugger that is quit ends the session. *)
Theorem empty_extraction_calls_breakpoint :
  extract_changes "" None = [] ∧
  revert_body Continue (start VNone) [] discard_prompt
  = Ok ({| buffer := ""; path := None; permanently_ignored := VNone;
           decided := [{| d_text := ""; d_answer := None |}] |}, []) ∧
  (∃ st', revert_lines Continue
            [discard_prompt; "-a"; "+b"; " x"; "-c"; "+d"; discard_prompt]
            (start VNone) []
          = Ok (st', ["s"])) ∧
  revert_body Quit (start VNone) [] discard_prompt = Raise BdbQuit.
Proof.
  split; [reflexivity|]. split; [reflexivity|]. split; [|reflexivity].
  eexists. by vm_compute.
Qed.

(** *** The prompt buffer *)

Lemma append_assoc (s t u : string) : (s +:+ t) +:+ u = s +:+ t +:+ u.
Proof.
  induction s as [|c s IH]; [done|]. by rewrite !append_cons, IH.
Qed.

Lemma append_nil_r (s : string) : s +:+ "" = s.
Proof. induction s as [|c s IH]; [done|]. by rewrite append_cons, IH. Qed.

Lemma revert_body_prompt hook st queue line st' queue' :
  Py.contains line prompt_phrase = true →
  revert_body hook st queue line = Ok (st', queue') →
  ∃ d, decided st' = decided st ++ [d] ∧ d_text d = buffer st ∧
       buffer st' = "" ∧ queue' = queue ++ omap d_answer [d].
Proof.
  intros Hprompt. unfold revert_body. rewrite Hprompt.
  destruct (extract_changes (buffer st) (path st)) as [|[p c] [|r2 rs]].
  - destruct (breakpoint hook); [|done]. intros [= <- <-].
    eexists; repeat split. cbn. by rewrite app_nil_r.
  - destruct (py_in _ _) as [[found policy]|]; [|done]. intros [= <- <-].
    eexists; repeat split.
  - intros [= <- <-]. eexists; repeat split.
Qed.

Lemma revert_body_buffered hook st queue line :
  Py.contains line prompt_phrase = false →
  ∃ st', revert_body hook st queue line = Ok (st', queue) ∧
         buffer st' = buffer st +:+ line +:+ Py.nl ∧
         decided st' = decided st.
Proof.
  intros Hline. unfold revert_body. rewrite Hline. eexists; by repeat split.
Qed.

Lemma revert_lines_windows hook lines : ∀ st queue st' queue',
  revert_lines hook lines st queue = Ok (st', queue') →
  ∃ ds, decided st' = decided st ++ ds ∧
        map d_text ds = (prompt_windows (buffer st) lines).1 ∧
        buffer st' = (prompt_windows (buffer st) lines).2 ∧
        queue' = queue ++ omap d_answer ds.
Proof.
  unfold revert_lines.
  induction lines as [|line rest IH]; intros st queue st' queue' Hrun.
  - injection Hrun as <- <-. exists []. by rewrite !app_nil_r.
  - cbn [for_each prompt_windows] in *.
    destruct (revert_body hook st queue line) as [[st1 queue1]|] eqn:Hbody;
      [|done].
    apply IH in Hrun as (ds & Hds & Htexts & Hleft & Hqueue).
    destruct (Py.contains line prompt_phrase) eqn:Hprompt.
    + apply revert_body_prompt in Hbody as (d & Hd & Htext & Hreset & Hq);
        [|done].
      rewrite Hreset in Htexts, Hleft.
      destruct (prompt_windows "" rest) as [windows leftover].
      exists (d :: ds). cbn [fst snd] in *. repeat split.
      * by rewrite Hds, Hd, <- app_assoc.
      * cbn [map]. by rewrite Htext, Htexts.
      * done.
      * rewrite Hqueue, Hq, <- app_assoc. f_equal.
        cbn. by destruct (d_answer d).
    + destruct (revert_body_buffered hook st queue line Hprompt)
        as (st2 & Hbody' & Hbuf & Hdec).
      rewrite Hbody in Hbody'. injection Hbody' as <- <-.
      rewrite Hbuf in Htexts, Hleft. exists ds. repeat split; try done.
      by rewrite Hds, Hdec.
Qed.







(** ** The driver's loop *)

Lemma pending_deliver w proc : pending (deliver w proc) = pending proc.
Proof. unfold deliver. by destruct w, (_stdin_queue proc). Qed.

(** What has been written and what is still queued, as the child will have
    read it in the end. *)
Lemma deliver_keeps_order w proc :
  child_stdin (deliver w proc)
    ++ map (λ l, l +:+ Py.nl) (_stdin_queue (deliver w proc))
  = child_stdin proc ++ map (λ l, l +:+ Py.nl) (_stdin_queue proc).
Proof.
  unfold deliver.
  destruct w, (_stdin_queue proc) as [|line queue] eqn:Hqueue;
    rewrite ?Hqueue; try done.
  simpl. by rewrite <- app_assoc.
Qed.

Lemma for_each_collect lines : ∀ seen queue,
  for_each collect lines seen queue = Ok (seen ++ lines, queue).
Proof.
  induction lines as [|line rest IH]; intros seen queue.
  - by rewrite app_nil_r.
  - cbn [for_each collect]. by rewrite IH, <- app_assoc.
Qed.

Lemma os_read_split data : ∀ n chunk rest,
  os_read n data = (chunk, rest) → chunk +:+ rest = data.
Proof.
  induction data as [|c data IH]; intros n chunk rest Hread.
  - by injection Hread as <- <-.
  - cbn [os_read] in Hread. destruct (decide (n = 0%N)).
    + by injection Hread as <- <-.
    + destruct (os_read (N.pred n) data) as [chunk' rest'] eqn:Hrec.
      injection Hread as <- <-. rewrite append_cons. f_equal. by eapply IH.
Qed.

(** *** The engine behind the driver *)

Lemma for_each_app {St : Type}
    (body : St → list string → string → result (St * list string))
    l1 : ∀ l2 st queue,
  for_each body (l1 ++ l2) st queue
  = match for_each body l1 st queue with
    | Ok (st1, queue1) => for_each body l2 st1 queue1
    | Raise e => Raise e
    end.
Proof.
  induction l1 as [|line l1 IH]; intros l2 st queue; [done|].
  cbn [app for_each]. destruct (body st queue line) as [[st1 queue1]|]; [|done].
  apply IH.
Qed.

(** The engine only ever appends to the queue, and what it appends does
    not depend on what is queued. *)
Lemma revert_body_queue hook st queue line st' queue' :
  revert_body hook st queue line = Ok (st', queue') →
  ∃ new, queue' = queue ++ new ∧
         ∀ q0, revert_body hook st q0 line = Ok (st', q0 ++ new).
Proof.
  unfold revert_body, writeline.
  destruct (Py.contains line prompt_phrase).
  - destruct (extract_changes (buffer st) (path st)) as [|[p c] [|r2 rs]].
    + destruct (breakpoint hook); [|done]. intros [= <- <-].
      exists []. split; [by rewrite app_nil_r|].
      intros q0. by rewrite app_nil_r.
    + destruct (py_in _ _) as [[found policy]|]; [|done]. intros [= <- <-].
      by eexists.
    + intros [= <- <-]. by eexists.
  - intros [= <- <-]. exists []. split; [by rewrite app_nil_r|].
    intros q0. by rewrite app_nil_r.
Qed.

Lemma revert_lines_queue hook lines : ∀ st queue st' queue',
  revert_lines hook lines st queue = Ok (st', queue') →
  ∃ new, queue' = queue ++ new ∧
         ∀ q0, revert_lines hook lines st q0 = Ok (st', q0 ++ new).
Proof.
  unfold revert_lines.
  induction lines as [|line rest IH]; intros st queue st' queue' Hrun.
  - injection Hrun as <- <-. exists []. split; [by rewrite app_nil_r|].
    intros q0. cbn. by rewrite app_nil_r.
  - cbn [for_each] in *.
    destruct (revert_body hook st queue line) as [[st1 queue1]|] eqn:Hbody;
      [|done].
    apply revert_body_queue in Hbody as (n1 & -> & Hany).
    apply IH in Hrun as (n2 & -> & Hrest).
    exists (n1 ++ n2). split; [by rewrite app_assoc|].
    intros q0. by rewrite Hany, Hrest, app_assoc.
Qed.

(** A run of the engine against the terminal that does not raise is the
    run of its loop body over the lines the driver yields, and the answers
    it queued reach the child in the order they were queued. *)
Lemma revert_ignored_changes_by_lines hook ticks : ∀ proc st e st' proc',
  Process_iter (revert_body hook) ticks proc st = (e, st', proc') →
  (∀ x, e ≠ Raised x) →
  ∃ lines new,
    (∀ other seen, pending other = pending proc →
       ∃ other', Process_iter collect ticks other seen
                 = (e, seen ++ lines, other')) ∧
    revert_lines hook lines st [] = Ok (st', new) ∧
    child_stdin proc' ++ map (λ l, l +:+ Py.nl) (_stdin_queue proc')
    = child_stdin proc ++ map (λ l, l +:+ Py.nl) (_stdin_queue proc ++ new).
Proof.
  induction ticks as [|t later IH]; intros proc st e st' proc' Hrun Hok.
  - injection Hrun as <- <- <-. exists [], []. repeat split.
    + intros other seen _. eexists. cbn. by rewrite app_nil_r.
    + by rewrite app_nil_r.
  - cbn [Process_iter] in Hrun. cbv zeta in Hrun.
    destruct (exited t) eqn:Hexit.
    { injection Hrun as <- <- <-. exists [], []. repeat split.
      - intros other seen _. eexists. cbn. by rewrite Hexit, app_nil_r.
      - cbn. by rewrite app_nil_r. }
    destruct (errored t) eqn:Herr.
    { injection Hrun as <- <- <-. exists [], []. repeat split.
      - intros other seen _. eexists. cbn. by rewrite Hexit, Herr, app_nil_r.
      - cbn. by rewrite app_nil_r. }
    destruct (pending proc +:+ emitted t) as [|c arrived] eqn:Harrived.
    + apply IH in Hrun as (lines & new & Hsame & Hlines & Hsent); [|done].
      exists lines, new. repeat split; [|done|].
      * intros other seen Hother. cbn [Process_iter]. cbv zeta.
        rewrite Hexit, Herr, Hother, Harrived.
        apply Hsame. by rewrite !pending_deliver.
      * by rewrite Hsent, !map_app, !app_assoc, deliver_keeps_order.
    + destruct (os_read 1000000 (String c arrived)) as [d u] eqn:Hread.
      cbn [_stdin_queue child_stdin pending] in Hrun.
      destruct (for_each (revert_body hook) (chunk_lines d) st
                  (_stdin_queue proc)) as [[st1 queue1]|] eqn:Hchunk.
      2: { injection Hrun as <- _ _. by destruct (Hok e0). }
      apply revert_lines_queue in Hchunk as (n1 & -> & Hany).
      apply IH in Hrun as (lines & new & Hsame & Hlines & Hsent); [|done].
      apply revert_lines_queue in Hlines as (n2 & Hn2 & Hrest).
      cbn [app] in Hn2. subst n2.
      exists (chunk_lines d ++ lines), (n1 ++ new). repeat split.
      * intros other seen Hother. cbn [Process_iter]. cbv zeta.
        rewrite Hexit, Herr, Hother, Harrived, Hread, for_each_collect.
        cbn [_stdin_queue child_stdin pending].
        destruct (Hsame (deliver (writable t)
                           {| pending := u; child_stdin := child_stdin other;
                              _stdin_queue := _stdin_queue other |})
                    (seen ++ chunk_lines d)) as [other' Hother'].
        { by rewrite !pending_deliver. }
        exists other'. by rewrite Hother', app_assoc.
      * unfold revert_lines in *. rewrite for_each_app, (Hany []).
        cbn [app]. by rewrite Hrest.
      * rewrite Hsent, !map_app, !app_assoc, deliver_keeps_order.
        simpl. by rewrite !map_app, !app_assoc.
Qed.

(** *** The loop with its reads spelt out *)

Lemma ascii_only_append s t :
  ascii_only (s +:+ t) = ascii_only s && ascii_only t.
Proof.
  induction s as [|[b0 b1 b2 b3 b4 b5 b6 b7] s IH]; [done|].
  rewrite append_cons. cbn [ascii_only]. by rewrite IH, andb_assoc.
Qed.











Lemma os_read_ascii n data chunk rest :
  ascii_only data = true → os_read n data = (chunk, rest) →
  ascii_only chunk = true ∧ ascii_only rest = true.
Proof.
  intros Hdata Hread. apply os_read_split in Hread. subst data.
  rewrite ascii_only_append in Hdata. by apply andb_true_iff in Hdata.
Qed.




(** [Process_iter] is the loop whose reads all succeed and take the
    1,000,000 characters asked for, on ASCII output. *)
Lemma Process_iter_full_reads {St : Type}
    (body : St → list string → string → result (St * list string)) ticks :
  ∀ proc st,
    ascii_only (pending proc) = true →
    Forall (λ t, ascii_only (emitted t) = true) ticks →
    Process_iter_passes body (map full_read ticks) proc st
    = let '(e, st', proc') := Process_iter body ticks proc st in
      Finished e st' proc'.
Proof.
  induction ticks as [|t later IH]; intros proc st Hascii Hticks; [done|].
  apply Forall_cons in Hticks as [Hemit Hticks].
  cbn [map Process_iter_passes Process_iter full_read p_tick p_read].
  cbv zeta.
  destruct (exited t); [done|]. destruct (errored t); [done|].
  assert (Harr : ascii_only (pending proc +:+ emitted t) = true).
  { by rewrite ascii_only_append, Hascii, Hemit. }
  destruct (pending proc +:+ emitted t) as [|c arrived] eqn:Harrived.
  - apply IH; [|done]. by rewrite pending_deliver.
  - change (read_size (full_read t)) with 1000000%N.
    destruct (os_read 1000000 (String c arrived)) as [chunk unread] eqn:Hos.
    destruct (os_read_ascii _ _ _ _ Harr Hos) as [Hchunk Hunread].
    unfold decode. rewrite Hchunk. cbn [_stdin_queue child_stdin].
    destruct (for_each body (chunk_lines chunk) st (_stdin_queue proc))
      as [[st' queue]|e]; [|done].
    apply IH; [|done]. by rewrite pending_deliver.
Qed.


(** * Further properties *)

(** ** The extractor on whole texts *)

Lemma signed_passes_the_headers l :
  signed l →
  bool_decide (l ∈ ["n"; "y"; "s"]) = false ∧
  Py.startswith_any l ["diff "; "index "] = false ∧
  Py.startswith l "@@ " = false.
Proof.
  intros Hs. destruct (signed_inv l Hs) as [t [-> | ->]]; by repeat split.
Qed.

Lemma concat_flush a chg : concat (map snd (flush a chg)) = chg.
Proof. destruct chg; [done|]. cbn. by rewrite app_nil_r. Qed.

Lemma filter_changed_cons_true l lines :
  is_changed_line l = true →
  filter (λ l, is_changed_line l = true) (l :: lines)
  = l :: filter (λ l, is_changed_line l = true) lines.
Proof. intros H. by rewrite filter_cons_True. Qed.

Lemma filter_changed_cons_false l lines :
  is_changed_line l = false →
  filter (λ l, is_changed_line l = true) (l :: lines)
  = filter (λ l, is_changed_line l = true) lines.
Proof. intros H. rewrite filter_cons_False; [done|]. by rewrite H. Qed.

Lemma filter_changed_none lines :
  Forall (λ l, is_changed_line l = false) lines →
  filter (λ l, is_changed_line l = true) lines = [].
Proof.
  induction 1 as [|l ls Hl _ IH]; [done|].
  by rewrite filter_changed_cons_false.
Qed.

Lemma extract_loop_conserves dp lines : ∀ a b chg,
  concat (map snd (extract_loop dp lines a b chg))
  = chg ++ filter (λ l, is_changed_line l = true) lines.
Proof.
  induction lines as [|line rest IH]; intros a b chg.
  - cbn [extract_loop]. by rewrite concat_flush, app_nil_r.
  - cbn [extract_loop]. unfold is_changed_line at 1.
    destruct (Py.startswith_any line ["+"; "-"]) eqn:Hsign.
    + destruct (signed_passes_the_headers line Hsign) as (-> & -> & ->).
      destruct (Py.startswith line "--- a/") eqn:Ha.
      { rewrite filter_changed_cons_false, IH; [done|].
        unfold is_changed_line. by rewrite Hsign, Ha. }
      destruct (Py.startswith line "+++ b/") eqn:Hb.
      { rewrite filter_changed_cons_false, IH; [done|].
        unfold is_changed_line. by rewrite Hsign, Ha, Hb. }
      cbn [negb]. rewrite filter_changed_cons_true, IH.
      * by rewrite <- app_assoc.
      * unfold is_changed_line. by rewrite Hsign, Ha, Hb.
    + rewrite filter_changed_cons_false
        by (unfold is_changed_line; by rewrite Hsign).
      destruct (bool_decide _); [apply IH|].
      destruct (Py.startswith_any line ["diff "; "index "]).
      { by rewrite map_app, concat_app, concat_flush, IH. }
      destruct (Py.startswith line "@@ "); [apply IH|].
      destruct (Py.startswith line "--- a/"); [apply IH|].
      destruct (Py.startswith line "+++ b/"); [apply IH|].
      cbn [negb]. by rewrite map_app, concat_app, concat_flush, IH.
Qed.

(** X1. No changed line is lost, doubled or moved: the changes that
    [extract_changes] yields, put one after the other, are exactly the lines
    of the text that carry a sign and do not read like a path marker, in the
    order of the text. *)
Theorem extraction_conserves_changed_lines output default_path :
  concat (map snd (extract_changes output default_path))
  = filter (λ l, is_changed_line l = true) (Py.splitlines output).
Proof. unfold extract_changes. by rewrite extract_loop_conserves. Qed.

Lemma extract_loop_empty_iff dp lines a b :
  extract_loop dp lines a b [] = [] ↔
  Forall (λ l, is_changed_line l = false) lines.
Proof.
  pose proof (extract_loop_conserves dp lines a b []) as Hcons.
  pose proof (extract_loop_signed dp lines a b [] (Forall_nil_2 _)) as Hne.
  cbn [app] in Hcons. split.
  - intros Hnil. rewrite Hnil in Hcons. cbn in Hcons.
    apply Forall_forall. intros l Hl.
    destruct (is_changed_line l) eqn:Hc; [|done].
    assert (l ∈ filter (λ l, is_changed_line l = true) lines)
      as Hin by by apply list_elem_of_filter.
    rewrite <- Hcons in Hin. by apply elem_of_nil in Hin.
  - intros Hall.
    rewrite (filter_changed_none _ Hall) in Hcons.
    destruct (extract_loop dp lines a b []) as [|[p c] rs]; [done|].
    apply Forall_cons in Hne as [[Hc _] _]. cbn in Hcons, Hc.
    by apply app_eq_nil in Hcons as [-> _].
Qed.

(** X2. [extract_changes] yields nothing exactly when the text has no
    changed line at all. *)
Theorem nothing_extracted_iff_no_changed_line output default_path :
  extract_changes output default_path = [] ↔
  Forall (λ l, is_changed_line l = false) (Py.splitlines output).
Proof.
  unfold extract_changes.
  apply (extract_loop_empty_iff default_path (Py.splitlines output) None None).
Qed.

Lemma extract_loop_ignores_b_path dp lines : ∀ a b b' chg,
  extract_loop dp lines a b chg = extract_loop dp lines a b' chg.
Proof.
  induction lines as [|line rest IH]; intros a b b' chg; [done|].
  cbn [extract_loop].
  destruct (bool_decide _); [apply IH|].
  destruct (Py.startswith_any line ["diff "; "index "]); [done|].
  destruct (Py.startswith line "@@ "); [apply IH|].
  destruct (Py.startswith line "--- a/"); [apply IH|].
  destruct (Py.startswith line "+++ b/"); [apply IH|].
  cbv zeta. destruct (negb _); [f_equal|]; apply IH.
Qed.

Lemma extract_loop_skips_turn dp k rest a b chg :
  Py.startswith k "@@ " = true ∨ Py.startswith k "+++ b/" = true →
  extract_loop dp (k :: rest) a b chg = extract_loop dp rest a b chg.
Proof.
  intros [Hk | Hk]; apply startswith_inv in Hk as [t ->].
  - apply loop_hunk_header.
  - rewrite loop_b_path_line. apply extract_loop_ignores_b_path.
Qed.

Lemma extract_loop_skips_anywhere dp k pre : ∀ post a b chg,
  Py.startswith k "@@ " = true ∨ Py.startswith k "+++ b/" = true →
  extract_loop dp (pre ++ k :: post) a b chg
  = extract_loop dp (pre ++ post) a b chg.
Proof.
  induction pre as [|line pre IH]; intros post a b chg Hk.
  - by apply extract_loop_skips_turn.
  - cbn [app extract_loop]. by rewrite !IH.
Qed.

(** X3. Hunk headers and after-path markers count for nothing: a line that
    starts with [@@ ] or with [+++ b/] can be taken out of the text without
    any change to what [extract_changes] yields, and the path after
    [+++ b/] never shows in a record. *)
Theorem headers_and_after_paths_are_ignored default_path k
    (Hk : Py.startswith k "@@ " = true ∨ Py.startswith k "+++ b/" = true) :
  (∀ output pre post,
     Py.splitlines output = pre ++ k :: post →
     extract_changes output default_path
     = extract_loop default_path (pre ++ post) None None []) ∧
  (∀ lines a_path b_path b_path' chg,
     extract_loop default_path lines a_path b_path chg
     = extract_loop default_path lines a_path b_path' chg).
Proof.
  split.
  - intros output pre post Hsplit. unfold extract_changes. rewrite Hsplit.
    by apply extract_loop_skips_anywhere.
  - intros. apply extract_loop_ignores_b_path.
Qed.

Lemma headers_and_after_paths_are_ignored_witness :
  extract_changes
    (join_lines ["--- a/old.txt"; "+++ b/new.txt"; "@@ -1 +1 @@"; "-a"; "+b"])
    None
  = extract_loop None ["--- a/old.txt"; "@@ -1 +1 @@"; "-a"; "+b"] None None [].
Proof.
  refine (proj1 (headers_and_after_paths_are_ignored None "+++ b/new.txt" _)
            (join_lines ["--- a/old.txt"; "+++ b/new.txt"; "@@ -1 +1 @@";
                         "-a"; "+b"])
            ["--- a/old.txt"] ["@@ -1 +1 @@"; "-a"; "+b"] eq_refl).
  by right.
Defined.

Lemma extract_loop_at_file_header dp k l2 l1 : ∀ a b chg,
  Py.startswith_any k ["diff "; "index "] = true →
  extract_loop dp (l1 ++ k :: l2) a b chg
  = extract_loop dp l1 a b chg ++ extract_loop dp (k :: l2) None None [].
Proof.
  intros a b chg Hk.
  assert (Hturn : ∀ a b chg,
    extract_loop dp (k :: l2) a b chg
    = flush a chg ++ extract_loop dp l2 None None []).
  { intros a' b' chg'. unfold Py.startswith_any in Hk. cbn [existsb] in Hk.
    apply orb_true_iff in Hk as [Hk | Hk].
    - apply startswith_inv in Hk as [t ->]. reflexivity.
    - rewrite orb_false_r in Hk. apply startswith_inv in Hk as [t ->].
      reflexivity. }
  revert a b chg.
  induction l1 as [|line l1 IH]; intros a b chg.
  - cbn [app]. rewrite !Hturn. reflexivity.
  - cbn [app extract_loop].
    destruct (bool_decide _); [apply IH|].
    destruct (Py.startswith_any line ["diff "; "index "]).
    { by rewrite IH, app_assoc. }
    destruct (Py.startswith line "@@ "); [apply IH|].
    destruct (Py.startswith line "--- a/"); [apply IH|].
    destruct (Py.startswith line "+++ b/"); [apply IH|].
    cbv zeta. destruct (negb _); [|apply IH].
    by rewrite IH, app_assoc.
Qed.

(** X4. Extraction goes file by file: where a line starts with [diff ] or
    [index ], what [extract_changes] yields for the whole text is what it
    yields for the lines before that line, followed by what it yields for
    the lines from that line on, each part read from a fresh start.  No
    change and no path crosses the header. *)
Theorem extraction_splits_at_file_headers output default_path l1 k l2 :
  Py.splitlines output = l1 ++ k :: l2 →
  Py.startswith_any k ["diff "; "index "] = true →
  extract_changes output default_path
  = extract_loop default_path l1 None None []
    ++ extract_loop default_path (k :: l2) None None [].
Proof.
  intros Hsplit Hk. unfold extract_changes. rewrite Hsplit.
  by apply extract_loop_at_file_header.
Qed.

Lemma extraction_splits_at_file_headers_witness :
  extract_changes (render_diff spaced_hunks) None
  = extract_loop None (render_files (take 1 spaced_hunks)) None None []
    ++ extract_loop None (render_files (drop 1 spaced_hunks)) None None [].
Proof.
  apply (extraction_splits_at_file_headers (render_diff spaced_hunks) None
           (render_files (take 1 spaced_hunks))
           "diff --git a/b.txt b/b.txt"
           (tail (render_files (drop 1 spaced_hunks))));
    reflexivity.
Defined.

Lemma flush_Forall (P : record → Prop) a chg :
  (∀ c, P (a, c)) → Forall P (flush a chg).
Proof. intros HP. destruct chg; cbn; by repeat constructor. Qed.

Lemma extract_loop_paths_known dp (all : list string) lines : ∀ a b chg,
  (∀ l, l ∈ lines → l ∈ all) →
  (a = None ∨ a = dp ∨ ∃ p, "--- a/" +:+ p ∈ all ∧ a = Some p) →
  Forall (λ r : record,
            r.1 = None ∨ r.1 = dp ∨
            ∃ p, "--- a/" +:+ p ∈ all ∧ r.1 = Some p)
    (extract_loop dp lines a b chg).
Proof.
  induction lines as [|line rest IH]; intros a b chg Hsub Ha.
  - by apply flush_Forall.
  - assert (Hrest : ∀ l, l ∈ rest → l ∈ all).
    { intros l Hl. apply Hsub. by right. }
    cbn [extract_loop].
    destruct (bool_decide _); [by apply IH|].
    destruct (Py.startswith_any line ["diff "; "index "]).
    { apply Forall_app; split; [by apply flush_Forall|]. apply IH; auto. }
    destruct (Py.startswith line "@@ "); [by apply IH|].
    destruct (Py.startswith line "--- a/") eqn:Hmark.
    { apply IH; [done|]. right; right.
      apply startswith_inv in Hmark as [p Hp].
      exists p. split; [rewrite <- Hp; apply Hsub; by left|].
      by rewrite Hp. }
    destruct (Py.startswith line "+++ b/"); [by apply IH|].
    cbv zeta.
    set (a' := if negb (Py.truthy a) && Py.truthy dp then dp else a).
    assert (Ha' : a' = None ∨ a' = dp ∨
                  ∃ p, "--- a/" +:+ p ∈ all ∧ a' = Some p).
    { subst a'. destruct (negb (Py.truthy a) && Py.truthy dp); auto. }
    clearbody a'.
    destruct (negb (Py.startswith_any line ["+"; "-"])).
    + apply Forall_app; split; [by apply flush_Forall|]. by apply IH.
    + by apply IH.
Qed.

(** X5. No path is made up: the path of every record that
    [extract_changes] yields is [None], the default path it was handed, or
    what follows [--- a/] on a line of the text. *)
Theorem record_paths_come_from_the_text output default_path :
  Forall (λ r : record,
            r.1 = None ∨ r.1 = default_path ∨
            ∃ p, "--- a/" +:+ p ∈ Py.splitlines output ∧ r.1 = Some p)
    (extract_changes output default_path).
Proof.
  unfold extract_changes. apply extract_loop_paths_known; auto.
Qed.

Lemma extract_loop_without_path dp lines : ∀ b chg,
  Py.truthy dp = false →
  Forall (λ line, Py.startswith line "--- a/" = false) lines →
  Forall (λ r : record, r.1 = None) (extract_loop dp lines None b chg).
Proof.
  induction lines as [|line rest IH]; intros b chg Hdp Hno.
  - by apply flush_Forall.
  - apply Forall_cons in Hno as [Hline Hrest]. cbn [extract_loop].
    rewrite Hline, Hdp.
    destruct (bool_decide _); [by apply IH|].
    destruct (Py.startswith_any line ["diff "; "index "]).
    { apply Forall_app; split; [by apply flush_Forall | by apply IH]. }
    destruct (Py.startswith line "@@ "); [by apply IH|].
    destruct (Py.startswith line "+++ b/"); [by apply IH|].
    cbn [Py.truthy negb andb]. destruct (negb _).
    + apply Forall_app; split; [by apply flush_Forall | by apply IH].
    + by apply IH.
Qed.

(** X6. Without a path marker and without a default path (none, or the
    empty one) every record that [extract_changes] yields has the path
    [None]: the changes of a file whose before side is not an [a/] path,
    a new file for one, are filed under no path at all. *)
Theorem records_without_marker_have_no_path output default_path :
  Py.truthy default_path = false →
  no_path_marker output →
  Forall (λ r : record, r.1 = None) (extract_changes output default_path).
Proof.
  intros Hdp Hno. unfold extract_changes. by apply extract_loop_without_path.
Qed.

Lemma records_without_marker_have_no_path_witness :
  Forall (λ r : record, r.1 = None)
    (extract_changes
       (join_lines ["diff --git a/new.txt b/new.txt"; "new file mode 100644";
                    "index 0000000..1111111"; "--- /dev/null";
                    "+++ b/new.txt"; "@@ -0,0 +1 @@"; "+hello"])
       None).
Proof.
  apply records_without_marker_have_no_path; [reflexivity|].
  unfold no_path_marker. vm_compute. repeat constructor.
Defined.

(** ** The engine and the extractor together *)

(** X7. A recognised prompt brings the engine to [breakpoint()] exactly when
    the buffered text holds no changed line: with a debugger that is quit,
    [BdbQuit] is raised in that case and in no other. *)
Theorem breakpoint_iff_no_changed_line st queue line :
  Py.contains line prompt_phrase = true →
  (revert_body Quit st queue line = Raise BdbQuit ↔
   Forall (λ l, is_changed_line l = false) (Py.splitlines (buffer st))).
Proof.
  intros Hprompt.
  rewrite <- (extract_loop_empty_iff (path st) _ None None).
  fold (extract_changes (buffer st) (path st)).
  unfold revert_body. rewrite Hprompt.
  destruct (extract_changes (buffer st) (path st)) as [|[p c] [|r2 rs]].
  - done.
  - split; [|done]. unfold py_in.
    destruct (permanently_ignored st); cbn; done.
  - done.
Qed.

Lemma breakpoint_iff_no_changed_line_witness :
  revert_body Quit
    {| buffer := join_lines ["y"; ""; "@@ -1 +1 @@"; " x"]; path := None;
       permanently_ignored := VNone; decided := [] |}
    [] discard_prompt
  = Raise BdbQuit.
Proof.
  apply (breakpoint_iff_no_changed_line
           {| buffer := join_lines ["y"; ""; "@@ -1 +1 @@"; " x"]; path := None;
              permanently_ignored := VNone; decided := [] |} [] discard_prompt).
  - reflexivity.
  - vm_compute. repeat constructor.
Defined.

(** ** The store *)

Lemma contains_iff_ignored self r :
  (__contains___ self r).1 = true ↔ ignored self r.
Proof.
  unfold __contains___, ignored. destruct r as [p c].
  destruct (purge_unused self); cbn; by rewrite bool_decide_eq_true.
Qed.

Lemma add_lookup self p c q :
  _ignores (add self p c) !! q
  = if decide (p = q) then Some (default [] (_ignores self !! p) ++ [c])
    else _ignores self !! q.
Proof.
  unfold add. cbn [_ignores]. rewrite lookup_alter.
  destruct (decide (p = q)) as [<-|Hne].
  - destruct (_ignores self !! p) as [l|] eqn:Hp.
    + by rewrite Hp.
    + by rewrite lookup_insert_eq.
  - destruct (_ignores self !! p); [done|]. by rewrite lookup_insert_ne.
Qed.

Lemma add_lookup_membership self p c :
  (∀ r, (__contains___ (add self p c) r).1 = true ↔
        r = (p, c) ∨ (__contains___ self r).1 = true) ∧
  _ignores (add self p c) !! p = Some (default [] (_ignores self !! p) ++ [c]) ∧
  (∀ q, q ≠ p → _ignores (add self p c) !! q = _ignores self !! q).
Proof.
  split; [|split].
  - intros [q d]. rewrite !contains_iff_ignored. unfold ignored. cbn [fst snd].
    rewrite add_lookup. destruct (decide (p = q)) as [<-|Hne]; cbn [default id].
    + rewrite elem_of_app, list_elem_of_singleton. split.
      * intros [H | ->]; auto.
      * intros [[= ->] | H]; auto.
    + split; [auto|]. intros [[= -> ->] | H]; done.
  - rewrite add_lookup. by rewrite decide_True.
  - intros q Hq. rewrite add_lookup. by rewrite decide_False.
Qed.

(** X8. [add] files the change last under its path and disturbs nothing
    else: afterwards the store's membership test finds exactly the added
    record and the records it found before, and the record of what was
    queried is as it was. *)
Theorem add_then_contains self p c :
  (∀ r, (__contains___ (add self p c) r).1 = true ↔
        r = (p, c) ∨ (__contains___ self r).1 = true) ∧
  _ignores (add self p c) !! p = Some (default [] (_ignores self !! p) ++ [c]) ∧
  (∀ q, q ≠ p → _ignores (add self p c) !! q = _ignores self !! q) ∧
  _used (add self p c) = _used self ∧
  purge_unused (add self p c) = purge_unused self.
Proof.
  destruct (add_lookup_membership self p c) as (Hmem & Hsame & Hother).
  split; [exact Hmem|]. split; [exact Hsame|]. split; [exact Hother|done].
Qed.

(** What the purge keeps of one path. *)
Lemma purge_path_lookup (used : list record) i suggestions : ∀ acc,
  (∀ p, p ≠ i → purge_path used i suggestions acc !! p = acc !! p) ∧
  purge_path used i suggestions acc !! i
  = match filter (λ s, (i, s) ∈ used) suggestions with
    | [] => acc !! i
    | kept => Some (default [] (acc !! i) ++ kept)
    end.
Proof.
  unfold purge_path.
  induction suggestions as [|s rest IH]; intros acc; [done|].
  cbn [foldl]. destruct (bool_decide_reflect ((i, s) ∈ used)) as [Hin|Hout].
  - destruct (IH (setdefault_append i s acc)) as [Hother Hsame]. split.
    + intros p Hp. rewrite Hother by done.
      unfold setdefault_append. by rewrite lookup_insert_ne.
    + rewrite Hsame, filter_cons_True by done.
      unfold setdefault_append. rewrite lookup_insert_eq. cbn [default id].
      destruct (filter _ rest); [done|]. by rewrite <- app_assoc.
  - destruct (IH acc) as [Hother Hsame]. split; [done|].
    by rewrite Hsame, filter_cons_False.
Qed.

Lemma purged_lookup (used : list record)
    (m : gmap (option string) (list change)) (p : option string) :
  map_fold (purge_path used) ∅ m !! p
  = match filter (λ s, (p, s) ∈ used) (default [] (m !! p)) with
    | [] => None
    | kept => Some kept
    end.
Proof.
  revert p.
  apply (map_fold_weak_ind
           (λ r m, ∀ p, r !! p
                        = match filter (λ s, (p, s) ∈ used)
                                  (default [] (m !! p)) with
                          | [] => None
                          | kept => Some kept
                          end)).
  - intros p. by rewrite !lookup_empty.
  - intros i x m' r Hfresh IH p.
    destruct (purge_path_lookup used i x r) as [Hother Hsame].
    destruct (decide (p = i)) as [->|Hne].
    + rewrite Hsame, lookup_insert_eq, IH, Hfresh. cbn [default id].
      rewrite filter_nil. by destruct (filter _ x).
    + rewrite Hother, lookup_insert_ne, IH by done. done.
Qed.

Lemma exit_keeps_what_was_queried_lemma self :
  (purge_unused self = true →
   (∀ r, ignored (__exit__ self) r ↔ ignored self r ∧ r ∈ _used self)) ∧
  (purge_unused self = false → __exit__ self = self).
Proof.
  unfold __exit__. split; intros Hpurge; rewrite Hpurge; [|done].
  cbn [_ignores].
  intros [p c]. unfold ignored. cbn [_ignores fst snd].
  rewrite purged_lookup.
  destruct (filter _ _) as [|k kept] eqn:Hkept; cbn [default].
  - split; [by intros ?%elem_of_nil|]. intros [Hin Hused].
    assert (c ∈ filter (λ s, (p, s) ∈ _used self)
                  (default [] (_ignores self !! p))) as Hc
      by by apply list_elem_of_filter.
    rewrite Hkept in Hc. by apply elem_of_nil in Hc.
  - cbn [id]. rewrite <- Hkept, list_elem_of_filter. tauto.
Qed.

(** X9. The purge of [__exit__]: with [purge_unused] set, what is written
    holds under each path exactly the changes that were queried under that
    path, in their old order, and a path of which nothing was queried is
    gone; a record is still found afterwards exactly when it was found
    before and had been queried.  Without [purge_unused] the store is
    written as it is. *)
Theorem exit_keeps_what_was_queried self :
  (purge_unused self = true →
   (∀ p, _ignores (__exit__ self) !! p
         = match filter (λ s, (p, s) ∈ _used self)
                   (default [] (_ignores self !! p)) with
           | [] => None
           | kept => Some kept
           end) ∧
   (∀ r, ignored (__exit__ self) r ↔ ignored self r ∧ r ∈ _used self)) ∧
  (purge_unused self = false → __exit__ self = self).
Proof.
  destruct (exit_keeps_what_was_queried_lemma self) as [Hon Hoff].
  split; [|done]. intros Hpurge. split; [|by apply Hon].
  intros p. unfold __exit__. rewrite Hpurge. apply purged_lookup.
Qed.

Lemma exit_keeps_what_was_queried_witness :
  ignored (__exit__ (__contains___ (purging foo_store) (Some "a.txt", ["+foo"])).2)
    (Some "a.txt", ["+foo"]).
Proof.
  apply (proj2 (proj1 (exit_keeps_what_was_queried
                  (__contains___ (purging foo_store) (Some "a.txt", ["+foo"])).2)
           eq_refl)).
  split; [|by left]. unfold ignored. vm_compute. by left.
Defined.

Lemma contains_marks_used self r :
  purge_unused self = true →
  _used (__contains___ self r).2 = _used self ++ [r] ∧
  _ignores (__contains___ self r).2 = _ignores self ∧
  purge_unused (__contains___ self r).2 = true.
Proof.
  intros Hpurge. unfold __contains___. rewrite Hpurge. by destruct r.
Qed.

Lemma purge_of_unqueried_is_empty self :
  purge_unused self = true → _used self = [] → _ignores (__exit__ self) = ∅.
Proof.
  intros Hpurge Hused. unfold __exit__. rewrite Hpurge. cbn [_ignores].
  apply map_eq. intros p. rewrite purged_lookup, lookup_empty, Hused.
  assert (filter (λ s, (p, s) ∈ []) (default [] (_ignores self !! p)) = [])
    as ->; [|done].
  induction (default [] (_ignores self !! p)) as [|s l IH]; [done|].
  rewrite filter_cons_False; [done|]. by intros ?%elem_of_nil.
Qed.

(** X10. Query and purge together: with [purge_unused] set, a record that
    the store's membership test has found is still found after
    [__exit__], whatever else was queried; and a store of which nothing was
    queried is written empty. *)
Theorem queried_records_survive_the_purge self :
  purge_unused self = true →
  (∀ r, (__contains___ self r).1 = true →
        ignored (__exit__ (__contains___ self r).2) r) ∧
  (_used self = [] → _ignores (__exit__ self) = ∅).
Proof.
  intros Hpurge. split; [|by apply purge_of_unqueried_is_empty].
  intros r Hfound. apply contains_iff_ignored in Hfound.
  destruct (contains_marks_used self r Hpurge) as (Hused & Hign & Hpurge').
  apply (proj1 (exit_keeps_what_was_queried_lemma _) Hpurge').
  split.
  - unfold ignored in *. by rewrite Hign.
  - rewrite Hused, elem_of_app, list_elem_of_singleton. by right.
Qed.

Lemma queried_records_survive_the_purge_witness :
  _ignores (__exit__ (purging foo_store)) = ∅.
Proof.
  apply (proj2 (queried_records_survive_the_purge (purging foo_store) eq_refl)).
  reflexivity.
Defined.

(** ** The recorder *)

Lemma remember_records_on_store records : ∀ s,
  ∃ s', remember_records records (VStore s) = Remembered (VStore s') ∧
        (∀ r, ignored s' r ↔ r ∈ records ∨ ignored s r) ∧
        _used s' = _used s ∧ purge_unused s' = purge_unused s.
Proof.
  induction records as [|[p c] rest IH]; intros s.
  - exists s. repeat split; try done.
    + intros H. by right.
    + intros [H%elem_of_nil | H]; done.
  - cbn [remember_records].
    destruct (IH (add s p c)) as (s' & Hrun & Hmem & Hused & Hpurge).
    exists s'. split; [done|]. split; [|by split].
    intros r. rewrite Hmem, elem_of_cons.
    rewrite <- !contains_iff_ignored.
    rewrite (proj1 (add_lookup_membership s p c) r). tauto.
Qed.

(** X11. Once [git diff] has printed ASCII text, which [decode()] returns as
    it is: given the store itself, [remember_discarded_changes] returns
    normally and makes every record that the extractor yields for the
    text a member of the store, keeps every member the store had and adds
    nothing else.  Given [None], or a list, it raises [AttributeError] as
    soon as the text holds one changed line, and passes silently when it
    holds none. *)
Theorem recorder_remembers_every_record stdout :
  ascii_only stdout = true →
  (∀ s, ∃ s',
     remember_discarded_changes stdout (VStore s)
     = Some (Remembered (VStore s')) ∧
     ∀ r, (__contains___ s' r).1 = true ↔
          r ∈ extract_changes stdout None ∨
          (__contains___ s r).1 = true) ∧
  (∀ policy, (policy = VNone ∨ ∃ l, policy = VList l) →
     remember_discarded_changes stdout policy
     = Some (if bool_decide (extract_changes stdout None = [])
             then Remembered policy else AttributeError)).
Proof.
  intros Hascii. unfold remember_discarded_changes, decode. rewrite Hascii.
  split.
  - intros s.
    destruct (remember_records_on_store (extract_changes stdout None) s)
      as (s' & Hrun & Hmem & _).
    exists s'. split; [by rewrite Hrun|].
    intros r. by rewrite !contains_iff_ignored.
  - intros policy Hpolicy.
    destruct (extract_changes stdout None) as [|[p c] rest]; [done|].
    rewrite bool_decide_eq_false_2 by done.
    by destruct Hpolicy as [-> | [l ->]].
Qed.

Lemma recorder_remembers_every_record_witness :
  remember_discarded_changes foo_hunk VNone = Some AttributeError.
Proof.
  refine (proj2 (recorder_remembers_every_record foo_hunk _) VNone _).
  - reflexivity.
  - by left.
Defined.

Lemma elem_of_file_records f h :
  h ∈ f_hunks f → (Some (f_a_path f), h_body h) ∈ file_records f.
Proof.
  unfold file_records. induction (f_hunks f) as [|h' hs IH].
  - by intros ?%elem_of_nil.
  - intros [-> | Hin]%elem_of_cons; cbn [map]; [by left|]. right. by apply IH.
Qed.

Lemma elem_of_diff_records d f h :
  f ∈ d → h ∈ f_hunks f → (Some (f_a_path f), h_body h) ∈ diff_records d.
Proof.
  unfold diff_records. induction d as [|f' d IH].
  - by intros ?%elem_of_nil.
  - intros [-> | Hin]%elem_of_cons Hh; cbn [map concat]; apply elem_of_app.
    + left. by apply elem_of_file_records.
    + right. by apply IH.
Qed.

(** X12. Recorder and extractor together, on the diff texts of C2 that are
    ASCII: well-formed hunks across files, neighbouring hunks of a file
    kept apart by an unchanged line, no changed line beginning with
    [--- a/] or [+++ b/].  The recorder returns normally, and the store
    afterwards ignores every hunk under the [--- a/] path of its file. *)
Theorem recorder_files_every_hunk d s f h :
  wf_diff d → segmentable d → ascii_only (render_diff d) = true →
  f ∈ d → h ∈ f_hunks f →
  ∃ s', remember_discarded_changes (render_diff d) (VStore s)
        = Some (Remembered (VStore s')) ∧
        (__contains___ s' (Some (f_a_path f), h_body h)).1 = true.
Proof.
  intros Hwf Hseg Hascii Hf Hh. unfold remember_discarded_changes, decode.
  rewrite Hascii.
  destruct (remember_records_on_store (extract_changes (render_diff d) None) s)
    as (s' & Hrun & Hmem & _).
  exists s'. split; [by rewrite Hrun|]. apply contains_iff_ignored, Hmem. left.
  unfold extract_changes, render_diff.
  rewrite splitlines_join_lines by by apply one_line_files.
  rewrite loop_files by done.
  by apply elem_of_diff_records.
Qed.

Lemma recorder_files_every_hunk_witness :
  ∃ s', remember_discarded_changes (render_diff spaced_hunks) (VStore foo_store)
        = Some (Remembered (VStore s')) ∧
        (__contains___ s' (Some "a.txt", ["-c"; "+d"])).1 = true.
Proof.
  apply (recorder_files_every_hunk spaced_hunks foo_store
           {| f_a_path := "a.txt"; f_b_path := "a.txt"; f_extended := [];
              f_index := "1111111..2222222 100644";
              f_hunks :=
                [{| h_header := "-1,2 +1,2 @@"; h_lead := [];
                    h_body := ["-a"; "+b"]; h_trail := ["x"] |};
                 {| h_header := "-9,2 +9,2 @@"; h_lead := ["y"];
                    h_body := ["-c"; "+d"]; h_trail := [] |}] |}
           {| h_header := "-9,2 +9,2 @@"; h_lead := ["y"];
              h_body := ["-c"; "+d"]; h_trail := [] |}).
  - repeat constructor; discriminate.
  - repeat constructor; discriminate.
  - reflexivity.
  - by left.
  - right. by left.
Defined.

(** ** The command *)



(** [git_is_clean] *)

Lemma rstrip_space_keeps_text c s :
  isspace c = false → rstrip_space (String c s) ≠ "".
Proof.
  intros Hc. cbn [rstrip_space]. rewrite Hc. by destruct (rstrip_space s).
Qed.

(** X14. [git_is_clean] takes the tree for clean exactly when the status
    output is blank: empty, or made of line ends and other white space
    only. *)
Theorem clean_iff_blank_status stdout :
  git_is_clean stdout = all_space stdout.
Proof.
  unfold git_is_clean, strip.
  induction stdout as [|c s IH]; [done|].
  cbn [lstrip_space all_space]. destruct (isspace c) eqn:Hc; [exact IH|].
  pose proof (rstrip_space_keeps_text c s Hc) as Hne.
  by destruct (rstrip_space (String c s)).
Qed.

(** ** The driver *)

Lemma plain_line_cons c s :
  plain_line (String c s) = true →
  c ≠ Py.LF ∧ (s = "" → c ≠ Py.CR) ∧ (s ≠ "" → plain_line s = true).
Proof.
  cbn [plain_line]. intros [Hlf Hrest]%andb_true_iff.
  apply negb_true_iff, bool_decide_eq_false in Hlf.
  split; [done|]. destruct s as [|c' s'].
  - apply negb_true_iff, bool_decide_eq_false in Hrest. by split.
  - split; [done|]. by intros _.
Qed.

Lemma rstrip_cr_of_plain l :
  plain_line l = true →
  Py.rstrip Py.CR (l +:+ String Py.CR "") = l ∧ Py.rstrip Py.CR l = l.
Proof.
  induction l as [|c l IH]; intros Hplain; [done|].
  apply plain_line_cons in Hplain as (_ & Hlast & Hrest).
  rewrite append_cons. cbn [Py.rstrip].
  destruct l as [|c' l'].
  - specialize (Hlast eq_refl). cbn. by rewrite !decide_False.
  - destruct (IH (Hrest ltac:(done))) as [-> ->]. done.
Qed.

Lemma split_lf_line l : ∀ ending t,
  plain_line l = true →
  (ending = "" ∨ ending = String Py.CR "") →
  Py.split Py.LF (l +:+ ending +:+ Py.nl +:+ t)
  = (l +:+ ending) :: Py.split Py.LF t.
Proof.
  induction l as [|c l IH]; intros ending t Hplain Hend.
  - by destruct Hend as [-> | ->].
  - apply plain_line_cons in Hplain as (Hlf & Hlast & Hrest).
    rewrite !append_cons. cbn [Py.split]. rewrite decide_False by done.
    destruct l as [|c' l'].
    + destruct Hend as [-> | ->]; done.
    + by rewrite (IH ending t (Hrest ltac:(done)) Hend).
Qed.

Lemma chunk_lines_of_lines ending lines :
  Forall (λ l, plain_line l = true) lines →
  (ending = "" ∨ ending = String Py.CR "") →
  chunk_lines (foldr (λ l rest, l +:+ ending +:+ Py.nl +:+ rest) "" lines)
  = lines ++ [""].
Proof.
  intros Hplain Hend. unfold chunk_lines.
  induction Hplain as [|l lines Hl _ IH]; [done|].
  cbn [foldr]. rewrite split_lf_line by done. cbn [map app].
  rewrite IH. f_equal.
  destruct (rstrip_cr_of_plain l Hl) as [Hcr Hno].
  by destruct Hend as [-> | ->]; rewrite ?append_nil_r.
Qed.

(** X15. The lines of a chunk: a chunk of whole lines, ended by the
    terminal's CR LF or by a bare LF, is yielded as those lines without
    their line ends, followed by one empty line for what comes after the
    last line end. *)
Theorem whole_lines_are_yielded_bare lines :
  Forall (λ l, plain_line l = true) lines →
  chunk_lines (join_crlf lines) = lines ++ [""] ∧
  chunk_lines (join_lines lines) = lines ++ [""].
Proof.
  intros Hplain. split.
  - rewrite <- (chunk_lines_of_lines (String Py.CR "") lines Hplain)
      by by right.
    reflexivity.
  - rewrite <- (chunk_lines_of_lines "" lines Hplain) by by left.
    reflexivity.
Qed.

Lemma whole_lines_are_yielded_bare_witness :
  chunk_lines (join_crlf ["@@ -1 +1 @@"; "-a"; "+b"])
  = ["@@ -1 +1 @@"; "-a"; "+b"] ++ [""].
Proof.
  apply (proj1 (whole_lines_are_yielded_bare ["@@ -1 +1 @@"; "-a"; "+b"]
                  ltac:(repeat constructor))).
Defined.

(** X16. Answers reach the child in the order of the prompts: when the
    engine's run against the terminal ends without an exception, what has
    been written to the child followed by what is still queued is exactly
    the answers of the decisions taken, in order, each with its newline,
    and nothing else. *)
Theorem answers_are_delivered_in_order hook ticks policy e st' proc' :
  revert_ignored_changes hook ticks policy = (e, st', proc') →
  (∀ x, e ≠ Raised x) →
  child_stdin proc' ++ map (λ l, l +:+ Py.nl) (_stdin_queue proc')
  = map (λ l, l +:+ Py.nl) (omap d_answer (decided st')).
Proof.
  unfold revert_ignored_changes. intros Hrun Hok.
  apply revert_ignored_changes_by_lines in Hrun
    as (lines & new & _ & Hlines & Hsent); [|done].
  apply revert_lines_windows in Hlines as (ds & Hds & _ & _ & Hnew).
  cbn [start decided app Process_init child_stdin _stdin_queue] in *.
  by rewrite Hsent, Hds, Hnew.
Qed.

Lemma answers_are_delivered_in_order_witness :
  ∃ st' proc',
    revert_ignored_changes Continue [two_runs_pass] VNone
    = (StillRunning, st', proc') ∧
    child_stdin proc' ++ map (λ l, l +:+ Py.nl) (_stdin_queue proc')
    = ["s" +:+ Py.nl].
Proof.
  eexists _, _. split; [by vm_compute|].
  refine (answers_are_delivered_in_order Continue [two_runs_pass] VNone
            StillRunning _ _ eq_refl _).
  done.
Defined.

Lemma Process_iter_writes {St : Type}
    (body : St → list string → string → result (St * list string)) ticks :
  ∀ proc st e st' proc',
  Process_iter body ticks proc st = (e, st', proc') →
  ∃ sent, child_stdin proc' = child_stdin proc ++ sent ∧
          length sent ≤ length (filter (λ t, writable t = true) ticks).
Proof.
  induction ticks as [|t later IH]; intros proc st e st' proc' Hrun.
  - injection Hrun as <- <- <-. exists []. by rewrite app_nil_r.
  - cbn [Process_iter] in Hrun. cbv zeta in Hrun.
    assert (Hzero : ∀ p : Process, child_stdin p = child_stdin proc →
      ∃ sent, child_stdin p = child_stdin proc ++ sent ∧
              length sent
              ≤ length (filter (λ t, writable t = true) (t :: later))).
    { intros p ->. exists []. rewrite app_nil_r. split; [done|]. cbn. lia. }
    destruct (exited t); [injection Hrun as <- <- <-; by apply Hzero|].
    destruct (errored t); [injection Hrun as <- <- <-; by apply Hzero|].
    assert (Hstep : ∀ unread queue st1,
      Process_iter body later
        (deliver (writable t)
           {| pending := unread; child_stdin := child_stdin proc;
              _stdin_queue := queue |}) st1 = (e, st', proc') →
      ∃ sent, child_stdin proc' = child_stdin proc ++ sent ∧
              length sent
              ≤ length (filter (λ t, writable t = true) (t :: later))).
    { intros unread queue st1 Hlater.
      apply IH in Hlater as (sent & Hsent & Hlen).
      unfold deliver in Hsent. cbn [_stdin_queue child_stdin] in Hsent.
      destruct (writable t) eqn:Hw.
      - rewrite filter_cons_True by done. cbn [length].
        destruct queue as [|line queue'].
        + exists sent. split; [done|lia].
        + cbn [child_stdin] in Hsent. exists ((line +:+ Py.nl) :: sent).
          split; [by rewrite Hsent, <- app_assoc|]. cbn [length]. lia.
      - rewrite filter_cons_False by (by rewrite Hw). by exists sent. }
    destruct (pending proc +:+ emitted t) as [|c arrived].
    + by eapply Hstep.
    + destruct (os_read 1000000 (String c arrived)) as [d u].
      cbn [_stdin_queue child_stdin pending] in Hrun.
      destruct (for_each body (chunk_lines d) st (_stdin_queue proc))
        as [[st1 queue1]|].
      * by eapply Hstep.
      * injection Hrun as <- <- <-. by apply Hzero.
Qed.

(** X17. The driver writes sparingly: whatever the consumer does, what was
    written to the child is never taken back, at most one queued line goes
    out in a pass, and none in a pass in which the terminal is not ready
    for writing. *)
Theorem at_most_one_write_per_pass {St : Type}
    (body : St → list string → string → result (St * list string))
    ticks proc st :
  ∃ sent,
    child_stdin (Process_iter body ticks proc st).2
    = child_stdin proc ++ sent ∧
    length sent ≤ length (filter (λ t, writable t = true) ticks).
Proof.
  destruct (Process_iter body ticks proc st) as [[e st'] proc'] eqn:Hrun.
  by apply Process_iter_writes in Hrun.
Qed.

(** ** The engine with a policy that answers [in] *)

Lemma revert_body_list_step hook st queue line l p chg :
  Py.contains line prompt_phrase = true →
  extract_changes (buffer st) (path st) = [(p, chg)] →
  permanently_ignored st = VList l →
  revert_body hook st queue line
  = Ok ({| buffer := ""; path := p; permanently_ignored := VList l;
           decided := decided st
             ++ [{| d_text := buffer st;
                    d_answer := Some (if bool_decide ((p, chg) ∈ l)
                                      then "y" else "n") |}] |},
        queue ++ [if bool_decide ((p, chg) ∈ l) then "y" else "n"]).
Proof.
  intros Hprompt Hone Hlist. unfold revert_body.
  by rewrite Hprompt, Hone, Hlist.
Qed.

Lemma revert_lines_buffered hook lines : ∀ st queue,
  Forall (λ line, Py.contains line prompt_phrase = false) lines →
  revert_lines hook lines st queue
  = Ok ({| buffer := buffer st +:+ join_lines lines; path := path st;
           permanently_ignored := permanently_ignored st;
           decided := decided st |}, queue).
Proof.
  unfold revert_lines.
  induction lines as [|line rest IH]; intros st queue Hlines.
  - cbn. rewrite append_nil_r. by destruct st.
  - apply Forall_cons in Hlines as [Hline Hrest].
    cbn [for_each]. unfold revert_body at 1. rewrite Hline, IH by done.
    cbn [buffer path permanently_ignored decided join_lines].
    by rewrite !append_assoc.
Qed.

(** X18. The remembered path: with a policy that answers [in], after a
    prompt decided on a single change under the path [p], the next prompt
    whose text names no file and holds a single change is decided on that
    change under [p] again: [y] when the policy holds it under [p], [n]
    otherwise. *)
Theorem headerless_prompt_is_decided_under_last_path
    hook st queue prompt l p c1 lines2 q c2 :
  permanently_ignored st = VList l →
  Py.contains prompt prompt_phrase = true →
  extract_changes (buffer st) (path st) = [(Some p, c1)] →
  p ≠ "" →
  Forall (λ line, Py.contains line prompt_phrase = false ∧
                  one_line line = true ∧
                  Py.startswith line "--- a/" = false) lines2 →
  extract_loop (Some p) lines2 None None [] = [(q, c2)] →
  ∃ st', revert_lines hook (prompt :: lines2 ++ [prompt]) st queue
         = Ok (st', queue ++ [if bool_decide ((Some p, c1) ∈ l)
                              then "y" else "n";
                              if bool_decide ((Some p, c2) ∈ l)
                              then "y" else "n"]) ∧
         path st' = Some p ∧ buffer st' = "".
Proof.
  intros Hlist Hprompt Hone Hp Hlines Hsecond.
  assert (Hq : q = Some p).
  { pose proof (extract_loop_default_path p lines2 None None [] Hp) as Hpath.
    rewrite Hsecond in Hpath.
    assert (Forall (λ r : record, r.1 = Some p) [(q, c2)]) as Hall.
    { apply Hpath; [|by left|done].
      eapply Forall_impl; [exact Hlines|]. by intros ? (_ & _ & ?). }
    by apply Forall_cons in Hall as [Hall _]. }
  subst q.
  unfold revert_lines. cbn [for_each].
  rewrite (revert_body_list_step hook st queue prompt l (Some p) c1)
    by done.
  rewrite for_each_app.
  pose proof (revert_lines_buffered hook lines2) as Hbuf.
  unfold revert_lines in Hbuf.
  rewrite Hbuf by (eapply Forall_impl; [exact Hlines|]; by intros ? (? & _)).
  cbn [for_each buffer path permanently_ignored decided].
  rewrite (revert_body_list_step hook _ _ prompt l (Some p) c2);
    [|done| |done].
  - eexists. split.
    + rewrite <- app_assoc. reflexivity.
    + by split.
  - cbn [buffer path]. unfold extract_changes.
    change ("" +:+ join_lines lines2) with (join_lines lines2).
    rewrite splitlines_join_lines; [done|].
    eapply Forall_impl; [exact Hlines|]. by intros ? (_ & ? & _).
Qed.

Lemma headerless_prompt_is_decided_under_last_path_witness :
  ∃ st', revert_lines Continue
           (discard_prompt :: ["@@ -9 +9 @@"; "-bar"] ++ [discard_prompt])
           {| buffer := foo_hunk; path := None;
              permanently_ignored := VList [(Some "a.txt", ["+foo"])];
              decided := [] |} []
         = Ok (st', [] ++ ["y"; "n"]) ∧
         path st' = Some "a.txt" ∧ buffer st' = "".
Proof.
  apply (headerless_prompt_is_decided_under_last_path Continue
           {| buffer := foo_hunk; path := None;
              permanently_ignored := VList [(Some "a.txt", ["+foo"])];
              decided := [] |}
           [] discard_prompt [(Some "a.txt", ["+foo"])] "a.txt" ["+foo"]
           ["@@ -9 +9 @@"; "-bar"] (Some "a.txt") ["-bar"]);
    try reflexivity.
  - discriminate.
  - repeat constructor.
Defined.

(** ** Reads and changes *)

Lemma loop_empty_line dp c p rest b chg :
  extract_loop dp ("" :: rest) (Some (String c p)) b chg
  = flush (Some (String c p)) chg
    ++ extract_loop dp rest (Some (String c p)) b [].
Proof. reflexivity. Qed.

Lemma flush_nonempty a (chg : list string) : chg ≠ [] → flush a chg = [(a, chg)].
Proof. by destruct chg. Qed.

Lemma one_line_plain l : one_line l = true → plain_line l = true.
Proof.
  induction l as [|c l IH]; [done|]. cbn [one_line plain_line].
  intros [Hc Hl]%andb_true_iff. apply negb_true_iff in Hc.
  assert (c ≠ Py.LF ∧ c ≠ Py.CR) as [Hlf Hcr].
  { split; intros ->; by vm_compute in Hc. }
  rewrite bool_decide_eq_false_2 by done. cbn [negb andb].
  destruct l; [by rewrite bool_decide_eq_false_2|by apply IH].
Qed.

Lemma changed_line_inv l :
  is_changed_line l = true →
  signed l ∧ Py.startswith l "--- a/" = false ∧ Py.startswith l "+++ b/" = false.
Proof.
  unfold is_changed_line.
  intros [[Hs Ha]%andb_true_iff Hb]%andb_true_iff.
  by rewrite negb_true_iff in Ha, Hb.
Qed.

(** A run of changed lines that is followed by an empty line. *)
Lemma loop_run_then_empty dp c p r rest b chg :
  Forall (λ l, is_changed_line l = true) r →
  extract_loop dp (r ++ "" :: rest) (Some (String c p)) b chg
  = flush (Some (String c p)) (chg ++ r)
    ++ extract_loop dp rest (Some (String c p)) b [].
Proof.
  intros Hr. rewrite loop_body_run.
  - by rewrite loop_empty_line.
  - eapply Forall_impl; [exact Hr|]. by intros l (? & _)%changed_line_inv.
  - eapply Forall_impl; [exact Hr|]. by intros l (_ & ?)%changed_line_inv.
Qed.

(** The same at the start of a text, under the default path. *)
Lemma loop_run_from_start c p r rest :
  r ≠ [] → Forall (λ l, is_changed_line l = true) r →
  extract_loop (Some (String c p)) (r ++ "" :: rest) None None []
  = (Some (String c p), r)
    :: extract_loop (Some (String c p)) rest (Some (String c p)) None [].
Proof.
  destruct r as [|l r]; [done|]. intros _ [Hl Hr]%Forall_cons.
  apply changed_line_inv in Hl as (Hs & Ha & Hb).
  assert (Hfirst : ∀ lines,
    extract_loop (Some (String c p)) (l :: lines) None None []
    = extract_loop (Some (String c p)) lines (Some (String c p)) None [l]).
  { intros lines. cbn [extract_loop]. rewrite Ha, Hb.
    destruct (signed_inv l Hs) as [t [-> | ->]]; reflexivity. }
  cbn [app]. by rewrite Hfirst, loop_run_then_empty.
Qed.

(** X19. Where a read ends changes the decision.  The engine has an empty
    buffer, a remembered path and a list for its policy, and is given what
    the driver yields for a run of changed lines and then the prompt.  When
    the run is read in one chunk it is one change, decided by its
    membership in the list.  When it is read in two chunks, the first
    ending at a line end, the driver yields an empty line between the two
    parts, the extractor takes it for an unchanged line when the engine
    hands it the buffer, and the engine answers [s]. *)
Theorem a_read_boundary_splits_a_change hook st queue prompt l c p r1 r2 :
  buffer st = "" → path st = Some (String c p) →
  permanently_ignored st = VList l →
  Py.contains prompt prompt_phrase = true →
  r1 ≠ [] → r2 ≠ [] →
  Forall (λ line, one_line line = true ∧ is_changed_line line = true ∧
                  Py.contains line prompt_phrase = false) (r1 ++ r2) →
  (∃ st', revert_lines hook (chunk_lines (join_crlf (r1 ++ r2)) ++ [prompt])
            st queue
          = Ok (st', queue ++ [if bool_decide ((Some (String c p), r1 ++ r2) ∈ l)
                               then "y" else "n"])) ∧
  (∃ st', revert_lines hook
            (chunk_lines (join_crlf r1) ++ chunk_lines (join_crlf r2)
               ++ [prompt])
            st queue
          = Ok (st', queue ++ ["s"])).
Proof.
  intros Hbuffer Hpath Hlist Hprompt Hr1 Hr2 Hall.
  assert (Hone : Forall (λ line, one_line line = true) (r1 ++ r2)).
  { eapply Forall_impl; [exact Hall|]. by intros ? (? & _). }
  assert (Hchanged : Forall (λ line, is_changed_line line = true) (r1 ++ r2)).
  { eapply Forall_impl; [exact Hall|]. by intros ? (_ & ? & _). }
  assert (Hquiet : Forall (λ line, Py.contains line prompt_phrase = false)
                     (r1 ++ r2)).
  { eapply Forall_impl; [exact Hall|]. by intros ? (_ & _ & ?). }
  assert (Hchunk : ∀ r, Forall (λ line, one_line line = true) r →
                        chunk_lines (join_crlf r) = r ++ [""]).
  { intros r Hr.
    rewrite <- (chunk_lines_of_lines (String Py.CR "") r) by
      (by right || (eapply Forall_impl; [exact Hr|]; apply one_line_plain)).
    reflexivity. }
  (* what the engine does with lines that are buffered, then the prompt *)
  assert (Hengine : ∀ yielded,
    Forall (λ line, one_line line = true) yielded →
    Forall (λ line, Py.contains line prompt_phrase = false) yielded →
    revert_lines hook (yielded ++ [prompt]) st queue
    = revert_body hook
        {| buffer := join_lines yielded; path := Some (String c p);
           permanently_ignored := VList l; decided := decided st |}
        queue prompt
    ∧ extract_changes (join_lines yielded) (Some (String c p))
      = extract_loop (Some (String c p)) yielded None None []).
  { intros yielded Hlines Hbuffered. split.
    - unfold revert_lines. rewrite for_each_app.
      pose proof (revert_lines_buffered hook yielded st queue Hbuffered) as Hbuf.
      unfold revert_lines in Hbuf. rewrite Hbuf, Hbuffer, Hpath, Hlist.
      cbn [for_each]. by destruct (revert_body _ _ _ _) as [[? ?]|].
    - unfold extract_changes. by rewrite splitlines_join_lines. }
  pose proof Hone as [Hone1 Hone2]%Forall_app.
  pose proof Hchanged as [Hch1 Hch2]%Forall_app.
  pose proof Hquiet as [Hq1 Hq2]%Forall_app.
  split.
  - rewrite (Hchunk _ Hone).
    destruct (Hengine ((r1 ++ r2) ++ [""])) as [-> Hextract].
    { apply Forall_app; split; [done|by repeat constructor]. }
    { apply Forall_app; split; [done|by repeat constructor]. }
    rewrite loop_run_from_start in Hextract;
      [|by intros [-> _]%app_eq_nil|done].
    cbn [extract_loop flush] in Hextract.
    erewrite revert_body_list_step; [by eexists|done|exact Hextract|done].
  - rewrite (Hchunk _ Hone1), (Hchunk _ Hone2), app_assoc.
    destruct (Hengine ((r1 ++ [""]) ++ r2 ++ [""])) as [-> Hextract].
    { repeat (apply Forall_app; split); by repeat constructor. }
    { repeat (apply Forall_app; split); by repeat constructor. }
    unfold revert_body. rewrite Hprompt. cbn [buffer path].
    rewrite Hextract, <- !app_assoc. cbn [app].
    rewrite loop_run_from_start, loop_run_then_empty by done.
    cbn [app extract_loop]. rewrite flush_nonempty by done.
    by eexists.
Qed.

Lemma a_read_boundary_splits_a_change_witness :
  ∃ st', revert_lines Continue
           (chunk_lines (join_crlf ["-a"]) ++ chunk_lines (join_crlf ["+b"])
              ++ [discard_prompt])
           {| buffer := ""; path := Some "a.txt";
              permanently_ignored := VList []; decided := [] |} []
         = Ok (st', [] ++ ["s"]).
Proof.
  refine (proj2 (a_read_boundary_splits_a_change Continue
                   {| buffer := ""; path := Some "a.txt";
                      permanently_ignored := VList []; decided := [] |}
                   [] discard_prompt [] "a" ".txt" ["-a"] ["+b"]
                   _ _ _ _ _ _ _)); try done.
  repeat constructor.
Defined.
